(** * bqn-vscode: the glyph palette provider ([src/glyphs_provider.ts])

    A shallow embedding of [GlyphsProvider] and the proofs of its
    specification.  The provider reads the bundled snippet file, derives one
    record per snippet, renders the records as buttons and inserts the glyph
    of a clicked button in the active editor.

    ECMAScript strings are sequences of UTF-16 code units; the regular
    expressions of the source are run by a small greedy backtracking matcher;
    the values produced by [JSON.parse] are dynamically typed; calls into the
    host (notifications, the console, the editor) are recorded in a trace. *)

From Stdlib Require Import String Ascii.
From Stdlib Require Import List Arith NArith Bool Lia Permutation Sorted.
From Stdlib Require Import Floats.SpecFloat.
Import ListNotations.

Set Warnings "-register-all".

(** ** Strings *)

Definition code_unit := N.
Definition jsstring := list code_unit.

(** A literal of the source text; every literal of the provider is ASCII, so
    its code units are the character codes. *)
Definition lit (s : string) : jsstring := map N_of_ascii (list_ascii_of_string s).
Arguments lit s%_string.

Definition code_unit_eq_dec : forall a b : code_unit, {a = b} + {a <> b} := N.eq_dec.
Definition jsstring_eq_dec : forall a b : jsstring, {a = b} + {a <> b} :=
  list_eq_dec code_unit_eq_dec.
Definition jsstring_eqb (a b : jsstring) : bool :=
  if jsstring_eq_dec a b then true else false.

Definition colon : code_unit := 58%N.

(** The code units matched by [\s] and stripped by [trim]: WhiteSpace and
    LineTerminator of ECMAScript. *)
Definition is_whitespace (c : code_unit) : bool :=
  ((c =? 9) || (c =? 10) || (c =? 11) || (c =? 12) || (c =? 13) || (c =? 32)
   || (c =? 0xa0) || (c =? 0x1680) || ((0x2000 <=? c) && (c <=? 0x200a))
   || (c =? 0x2028) || (c =? 0x2029) || (c =? 0x202f) || (c =? 0x205f)
   || (c =? 0x3000) || (c =? 0xfeff))%N.

Definition is_colon (c : code_unit) : bool := (c =? colon)%N.
Definition not_colon (c : code_unit) : bool := negb (c =? colon)%N.

Fixpoint drop_while (p : code_unit -> bool) (s : jsstring) : jsstring :=
  match s with
  | [] => []
  | c :: s' => if p c then drop_while p s' else s
  end.

Fixpoint take_while (p : code_unit -> bool) (s : jsstring) : jsstring :=
  match s with
  | [] => []
  | c :: s' => if p c then c :: take_while p s' else []
  end.

(** [String.prototype.trim] *)
Definition trim (s : jsstring) : jsstring :=
  rev (drop_while is_whitespace (rev (drop_while is_whitespace s))).

(** ** Regular expressions

    The patterns of the provider are sequences of character classes, each
    taken once or under a greedy [+] or [*], anchored at the start of the
    input by [^] (no [m] flag: the anchor holds at index 0 only). *)

Inductive quantifier := Once | Plus | Star.

Record term := Term { accepts : code_unit -> bool; quant : quantifier }.

Definition regex := list term.

(** What the matcher returns: the substring consumed by each term. *)
Definition pieces := list jsstring.

Definition consume (w : jsstring) (r : option pieces) : option pieces :=
  option_map (cons w) r.

Definition extend (c : code_unit) (r : option pieces) : option pieces :=
  match r with
  | Some (w :: l) => Some ((c :: w) :: l)
  | _ => None
  end.

(** Greedy star: take one more code unit when the class accepts it and the
    rest of the pattern still matches; otherwise give back and let the
    continuation [k] run from here. *)
Fixpoint star (p : code_unit -> bool) (k : jsstring -> option pieces)
         (s : jsstring) : option pieces :=
  match s with
  | c :: s' =>
      if p c then
        match extend c (star p k s') with
        | Some m => Some m
        | None => consume [] (k s)
        end
      else consume [] (k s)
  | [] => consume [] (k [])
  end.

Fixpoint exec (r : regex) : jsstring -> option pieces :=
  match r with
  | [] => fun _ => Some []
  | t :: r' =>
      let k := exec r' in
      match quant t with
      | Once => fun s =>
          match s with
          | c :: s' => if accepts t c then consume [c] (k s') else None
          | [] => None
          end
      | Plus => fun s =>
          match s with
          | c :: s' => if accepts t c then extend c (star (accepts t) k s') else None
          | [] => None
          end
      | Star => star (accepts t) k
      end
  end.

(** The text matched by the whole pattern. *)
Definition matched (m : pieces) : jsstring := concat m.

(** [s.replace(r, '')] for an anchored, non-global [r]: the first (and only
    possible) match is cut out; without a match the string is unchanged. *)
Definition replace_first_with_empty (r : regex) (s : jsstring) : jsstring :=
  match exec r s with
  | Some m => skipn (length (matched m)) s
  | None => s
  end.

(** [s.replace(/\s/g, '')]: every match of the one-class pattern is cut out. *)
Fixpoint replace_class_global_with_empty (p : code_unit -> bool) (s : jsstring)
  : jsstring :=
  match s with
  | [] => []
  | c :: s' =>
      if p c then replace_class_global_with_empty p s'
      else c :: replace_class_global_with_empty p s'
  end.

(** [/^([^:]+):/]; group 1 is the first term. *)
Definition category_pattern : regex := [Term not_colon Plus; Term is_colon Once].

(** [/^[^:]+:\s*/] *)
Definition name_pattern : regex :=
  [Term not_colon Plus; Term is_colon Once; Term is_whitespace Star].

Definition group1 (m : pieces) : jsstring := nth 0 m [].

(** ** Values

    [JSON.parse] turns the text of the file into dynamically typed values;
    nothing checks them against the [SnippetsFile] interface.  A number is
    the IEEE 754 double the parser produced. *)

Inductive value :=
| VUndefined
| VNull
| VBool (b : bool)
| VNumber (x : spec_float)
| VString (s : jsstring)
| VArray (items : list value)
| VObject (props : list (jsstring * value)).

(** The syntax tree of a JSON text: the members of an object are in the order
    of the text, and a name may occur more than once. *)
Inductive json :=
| JNull
| JBool (b : bool)
| JNumber (x : spec_float)
| JString (s : jsstring)
| JArray (items : list json)
| JObject (members : list (jsstring * json)).

(** [CreateDataProperty]: a new key is appended, an existing key keeps its
    place and takes the new value.  The property list of a [VObject] is in
    creation order. *)
Fixpoint define_property (props : list (jsstring * value)) (k : jsstring) (v : value)
  : list (jsstring * value) :=
  match props with
  | [] => [(k, v)]
  | (k', v') :: props' =>
      if jsstring_eqb k k' then (k, v) :: props'
      else (k', v') :: define_property props' k v
  end.

(** The value [JSON.parse] builds from a syntax tree. *)
Fixpoint internalize (j : json) : value :=
  match j with
  | JNull => VNull
  | JBool b => VBool b
  | JNumber x => VNumber x
  | JString s => VString s
  | JArray items => VArray (map internalize items)
  | JObject members =>
      VObject (fold_left
                 (fun props m => let '(k, v) := m in define_property props k (internalize v))
                 members [])
  end.

(** One step of the construction of an object: the member is defined on the
    properties made so far. *)
Definition internalize_member (props : list (jsstring * value)) (m : jsstring * json)
  : list (jsstring * value) :=
  let '(k, v) := m in define_property props k (internalize v).

Fixpoint lookup (k : jsstring) (props : list (jsstring * value)) : option value :=
  match props with
  | [] => None
  | (k', v) :: props' => if jsstring_eqb k k' then Some v else lookup k props'
  end.

(** *** Array indices

    A property key is an array index when it is the canonical decimal
    numeral of an integer below 2^32 - 1. *)

Fixpoint uint_digits (d : Decimal.uint) : jsstring :=
  match d with
  | Decimal.Nil => []
  | Decimal.D0 d => 48%N :: uint_digits d
  | Decimal.D1 d => 49%N :: uint_digits d
  | Decimal.D2 d => 50%N :: uint_digits d
  | Decimal.D3 d => 51%N :: uint_digits d
  | Decimal.D4 d => 52%N :: uint_digits d
  | Decimal.D5 d => 53%N :: uint_digits d
  | Decimal.D6 d => 54%N :: uint_digits d
  | Decimal.D7 d => 55%N :: uint_digits d
  | Decimal.D8 d => 56%N :: uint_digits d
  | Decimal.D9 d => 57%N :: uint_digits d
  end.

(** [String(n)] for a non-negative integer. *)
Definition decimal (n : N) : jsstring := uint_digits (N.to_uint n).

Definition is_digit (c : code_unit) : bool := ((48 <=? c) && (c <=? 57))%N.

Definition digits_value (s : jsstring) : N :=
  fold_left (fun acc c => (10 * acc + (c - 48))%N) s 0%N.

Definition array_index (k : jsstring) : option N :=
  match k with
  | [] => None
  | _ :: _ =>
      if forallb is_digit k then
        let n := digits_value k in
        if jsstring_eqb (decimal n) k && (n <? 4294967295)%N then Some n else None
      else None
  end.

Definition is_array_index (k : jsstring) : bool :=
  match array_index k with Some _ => true | None => false end.

(** *** Enumeration

    [for (k in o)] visits the own enumerable string keys of [o]: the array
    indices in ascending numeric order, then the other keys in creation
    order.  The built-in prototypes have no enumerable property. *)

Fixpoint insert_index (n : N) (k : jsstring) (l : list (N * jsstring))
  : list (N * jsstring) :=
  match l with
  | [] => [(n, k)]
  | (n', k') :: l' =>
      if (n <=? n')%N then (n, k) :: l else (n', k') :: insert_index n k l'
  end.

Fixpoint index_keys (ks : list jsstring) : list (N * jsstring) :=
  match ks with
  | [] => []
  | k :: ks' =>
      match array_index k with
      | Some n => insert_index n k (index_keys ks')
      | None => index_keys ks'
      end
  end.

Definition own_property_keys (props : list (jsstring * value)) : list jsstring :=
  let ks := map fst props in
  map snd (index_keys ks) ++ filter (fun k => negb (is_array_index k)) ks.

Definition indices (n : nat) : list jsstring :=
  map (fun i => decimal (N.of_nat i)) (seq 0 n).

Definition for_in_keys (o : value) : list jsstring :=
  match o with
  | VObject props => own_property_keys props
  | VArray items => indices (length items)
  | VString s => indices (length s)
  | _ => []
  end.

(** ** Exceptions, effects and the host *)

Inductive type_error :=
| NotAFunction (callee : jsstring)
| CannotReadProperty (base : value) (property : jsstring).

Inductive exn :=
| SystemError (message : jsstring)   (* thrown by [fs.readFileSync] *)
| SyntaxError (message : jsstring)   (* thrown by [JSON.parse] *)
| TypeError (why : type_error).

Inductive completion (A : Type) :=
| Normal (a : A)
| Throw (e : exn).
Arguments Normal {A} a.
Arguments Throw {A} e.

Record position := { line : N; character : N }.

(** [vscode.Selection] *)
Record selection := { anchor : position; active : position }.

(** [vscode.TextEditor]; the document is named by its URI. *)
Record editor := { document : jsstring; selections : list selection }.

(** One call on the [TextEditorEdit] builder. *)
Inductive edit_op :=
| Replace (location : selection) (text : value).

(** The calls into the host, in the order they happen. *)
Inductive event :=
| ShowErrorMessage (text : jsstring)
| ShowInformationMessage (text : jsstring)
| ConsoleError (label : jsstring) (error : exn)
| EditorEdit (target : editor) (ops : list edit_op)
| ShowTextDocument (doc : jsstring).

(** A computation: the trace of host calls it made and how it completed. *)
Definition M (A : Type) : Type := list event * completion A.

Definition ret {A} (a : A) : M A := ([], Normal a).

Definition bind {A B} (m : M A) (f : A -> M B) : M B :=
  match m with
  | (t, Normal a) => let (t', r) := f a in (t ++ t', r)
  | (t, Throw e) => (t, Throw e)
  end.

Definition emit (ev : event) : M unit := ([ev], Normal tt).

Definition throw {A} (e : exn) : M A := ([], Throw e).

(** [try { m } catch (error) { h error }] *)
Definition try_catch {A} (m : M A) (h : exn -> M A) : M A :=
  match m with
  | (t, Normal a) => (t, Normal a)
  | (t, Throw e) => let (t', r) := h e in (t ++ t', r)
  end.

Declare Scope js_scope.
Delimit Scope js_scope with js.
Notation "x <- m ;; k" := (bind m (fun x => k))
  (at level 61, m at next level, right associativity) : js_scope.
Notation "m ;; k" := (bind m (fun _ => k))
  (at level 61, right associativity) : js_scope.
Local Open Scope js_scope.

Definition trace {A} (m : M A) : list event := fst m.
Definition outcome {A} (m : M A) : completion A := snd m.

(** What the platform decides and the source does not: the locale's
    lower-casing, the text of an error or of a value that is not a string
    when a template literal interpolates it, and [path.join]. *)
Class Host := {
  toLocaleLowerCase : jsstring -> jsstring;
  error_text : exn -> jsstring;
  display : value -> completion jsstring;
  path_join : list jsstring -> jsstring
}.

(** *** Property access

    [Get] is used with a key the enumeration has produced and with the names
    [body], [0], [command] and [glyph], which no built-in prototype defines. *)

Definition element {A} (wrap : A -> value) (l : list A) (k : jsstring) : value :=
  match array_index k with
  | Some i => match nth_error l (N.to_nat i) with Some x => wrap x | None => VUndefined end
  | None => VUndefined
  end.

Definition Get (o : value) (k : jsstring) : M value :=
  match o with
  | VUndefined | VNull => throw (TypeError (CannotReadProperty o k))
  | VBool _ | VNumber _ => ret VUndefined
  | VString s => ret (element (fun c => VString [c]) s k)
  | VArray items => ret (element (fun v => v) items k)
  | VObject props =>
      ret (match lookup k props with Some v => v | None => VUndefined end)
  end.

(** [o.hasOwnProperty(k)]: the method is looked up on [o] first, and an own
    property of that name (a parsed value, never a function) hides
    [Object.prototype.hasOwnProperty]. *)
Definition hasOwnProperty (o : value) (k : jsstring) : M bool :=
  match o with
  | VUndefined | VNull =>
      throw (TypeError (CannotReadProperty o (lit "hasOwnProperty")))
  | VBool _ | VNumber _ => ret false
  | VString s =>
      ret (match array_index k with
           | Some i => (i <? N.of_nat (length s))%N
           | None => jsstring_eqb k (lit "length")
           end)
  | VArray items =>
      ret (match array_index k with
           | Some i => (i <? N.of_nat (length items))%N
           | None => jsstring_eqb k (lit "length")
           end)
  | VObject props =>
      match lookup (lit "hasOwnProperty") props with
      | Some _ => throw (TypeError (NotAFunction (lit "hasOwnProperty")))
      | None => ret (match lookup k props with Some _ => true | None => false end)
      end
  end.

Definition is_zero_or_nan (x : spec_float) : bool :=
  match x with
  | S754_zero _ | S754_nan => true
  | _ => false
  end.

Definition ToBoolean (v : value) : bool :=
  match v with
  | VUndefined | VNull => false
  | VBool b => b
  | VNumber x => negb (is_zero_or_nan x)
  | VString s => match s with [] => false | _ :: _ => true end
  | VArray _ | VObject _ => true
  end.

(** [a === b] against a string literal. *)
Definition strict_equals_string (v : value) (s : jsstring) : bool :=
  match v with
  | VString s' => jsstring_eqb s' s
  | _ => false
  end.

(** ** The provider *)

Record BqnPrimitive := {
  glyph : value;
  name : jsstring;
  category : jsstring
}.

(** The state of a file: [fs.readFileSync] throws, or returns a text that
    [JSON.parse] rejects or parses. *)
Inductive content :=
| Unparseable (e : exn)
| Parseable (tree : json).

Inductive file :=
| Unreadable (e : exn)
| Readable (c : content).

Definition filesystem := jsstring -> file.

Definition readFileSync (fs : filesystem) (path : jsstring) : M content :=
  match fs path with
  | Unreadable e => throw e
  | Readable c => ret c
  end.

Definition JSON_parse (c : content) : M value :=
  match c with
  | Unparseable e => throw e
  | Parseable tree => ret (internalize tree)
  end.

Record GlyphsProvider := { _extensionUri_fsPath : jsstring }.

Definition dquote : code_unit := 34%N.
Definition newline : code_unit := 10%N.

Fixpoint join_lines (ls : list jsstring) : jsstring :=
  match ls with
  | [] => []
  | [l] => l
  | l :: ls' => l ++ newline :: join_lines ls'
  end.

(** The template of [_getHtmlForWebview] up to [${glyphButtons}]. *)
Definition document_head : jsstring :=
  join_lines
    [ lit "<!DOCTYPE html>";
      lit "    <html lang=" ++ dquote :: lit "en" ++ dquote :: lit ">";
      lit "    <head>";
      lit "      <meta charset=" ++ dquote :: lit "UTF-8" ++ dquote :: lit ">";
      lit "      <meta name=" ++ dquote :: lit "viewport" ++ dquote :: lit " content=" ++ dquote :: lit "width=device-width, initial-scale=1.0" ++ dquote :: lit ">";
      lit "      <title>BQN Glyphs</title>";
      lit "      <style>";
      lit "        body {";
      lit "          padding: 5px;";
      lit "          font-size: 1.5em;";
      lit "        }";
      lit "        .glyph-button {";
      lit "          cursor: pointer;";
      lit "          border: 1px solid var(--vscode-button-secondaryBackground);";
      lit "          background-color: var(--vscode-button-secondaryBackground);";
      lit "          color: var(--vscode-editor-foreground);";
      lit "          margin: 2px;";
      lit "          padding: 5px 10px;";
      lit "          border-radius: 3px;";
      lit "          min-width: 40px;";
      lit "          text-align: center;";
      lit "          font-size: 0.75em;";
      lit "        }";
      lit "        /* Category-specific colors (overrides the default 'color' property) */";
      lit "        .value { color: var(--vscode-terminal-ansiWhite); }";
      lit "        .function { color: var(--vscode-terminal-ansiBrightGreen); }";
      lit "        .modifier { color: var(--vscode-terminal-ansiMagenta); }";
      lit "        .modifier2 { color: var(--vscode-terminal-ansiBrightYellow); }";
      lit "        .number { color: var(--vscode-terminal-ansiRed); }";
      lit "        .gets { color: var(--vscode-terminal-ansiWhite); }";
      lit "        .parens { color: var(--vscode-terminal-ansiWhite); }";
      lit "        .bracket { color: var(--vscode-terminal-ansiBrightMagenta); }";
      lit "        .brace { color: var(--vscode-terminal-ansiMagenta); }";
      lit "        .ligature { color: var(--vscode-terminal-ansiWhite); }";
      lit "        .nothing { color: var(--vscode-terminal-ansiRed); }";
      lit "        .separator { color: var(--vscode-terminal-ansiBrightMagenta); }";
      lit "        .comment { color: var(--vscode-terminal-ansiBlue); }";
      lit "        .string { color: var(--vscode-terminal-ansiBrightBlue); }";
      lit "        .other { color: var(--vscode-terminal-ansiWhite); }";
      lit "        .glyph-button:hover {";
      lit "          background-color: var(--vscode-button-secondaryHoverBackground);";
      lit "        }";
      lit "      </style>";
      lit "    </head>";
      lit "    <body>";
      lit "      " ].

(** The template of [_getHtmlForWebview] after [${glyphButtons}]. *)
Definition document_tail : jsstring :=
  join_lines
    [ [];
      [];
      lit "      <script>";
      lit "        const vscode = acquireVsCodeApi();";
      [];
      lit "        document.body.addEventListener('click', event => {";
      lit "          if (event.target.className.includes('glyph-button')) {";
      lit "            vscode.postMessage({";
      lit "              command: 'insertGlyph',";
      lit "              glyph: event.target.innerText";
      lit "            });";
      lit "          }";
      lit "        });";
      lit "      </script>";
      lit "    </body>";
      lit "    </html>" ].

Section Provider.

Context {host : Host}.

Definition category_of (fullKey : jsstring) : jsstring :=
  match exec category_pattern fullKey with
  | Some categoryMatch =>
      replace_class_global_with_empty is_whitespace
        (toLocaleLowerCase (trim (group1 categoryMatch)))
  | None => lit "other"
  end.

Definition name_of (fullKey : jsstring) : jsstring :=
  trim (replace_first_with_empty name_pattern fullKey).

(** The body of [for (const fullKey in snippets)], over the keys still to
    visit, with the array [primitives] built so far. *)
Fixpoint for_in_snippets (snippets : value) (keys : list jsstring)
         (primitives : list BqnPrimitive) : M (list BqnPrimitive) :=
  match keys with
  | [] => ret primitives
  | fullKey :: keys' =>
      own <- hasOwnProperty snippets fullKey ;;
      if (own : bool) then
        snippet <- Get snippets fullKey ;;
        let category := category_of fullKey in
        let name := name_of fullKey in
        body <- Get snippet (lit "body") ;;
        glyph <- Get body (lit "0") ;;
        if ToBoolean glyph then
          for_in_snippets snippets keys'
            (primitives ++ [{| glyph := glyph; name := name; category := category |}])
        else for_in_snippets snippets keys' primitives
      else for_in_snippets snippets keys' primitives
  end.

Definition snippetsPath (this : GlyphsProvider) : jsstring :=
  path_join [_extensionUri_fsPath this; lit "snippets"; lit "snippets.code-snippets"].

(** The [try] block of [_loadGlyphData]. *)
Definition try_block (this : GlyphsProvider) (fs : filesystem) : M (list BqnPrimitive) :=
  fileContent <- readFileSync fs (snippetsPath this) ;;
  snippets <- JSON_parse fileContent ;;
  for_in_snippets snippets (for_in_keys snippets) [].

(** The [catch] block of [_loadGlyphData]. *)
Definition catch_block (error : exn) : M (list BqnPrimitive) :=
  emit (ShowErrorMessage (lit "Failed to load BQN snippets: " ++ error_text error)) ;;
  emit (ConsoleError (lit "Failed to load BQN snippets:") error) ;;
  ret [].

Definition _loadGlyphData (this : GlyphsProvider) (fs : filesystem)
  : M (list BqnPrimitive) :=
  try_catch (try_block this fs) catch_block.

(** [`${v}`] *)
Definition interpolate (v : value) : M jsstring :=
  match v with
  | VString s => ret s
  | _ => match display v with Normal s => ret s | Throw e => throw e end
  end.

(** The arrow function mapped over [bqnPrimitives]. *)
Definition button (item : BqnPrimitive) : M jsstring :=
  text <- interpolate (glyph item) ;;
  ret (lit "<button class=" ++ dquote :: lit "glyph-button " ++ category item
         ++ dquote :: lit " title=" ++ dquote :: name item ++ dquote :: lit ">"
         ++ text ++ lit "</button>").

Fixpoint map_join (items : list BqnPrimitive) : M jsstring :=
  match items with
  | [] => ret []
  | item :: items' =>
      b <- button item ;;
      bs <- map_join items' ;;
      ret (b ++ bs)
  end.

(** The markup for a given catalogue. *)
Definition markup (bqnPrimitives : list BqnPrimitive) : M jsstring :=
  glyphButtons <- map_join bqnPrimitives ;;
  ret (document_head ++ glyphButtons ++ document_tail).

Definition _getHtmlForWebview (this : GlyphsProvider) (fs : filesystem) : M jsstring :=
  bqnPrimitives <- _loadGlyphData this fs ;;
  markup bqnPrimitives.

(** How the promise returned by [editor.edit] settles. *)
Inductive settlement :=
| Fulfilled (applied : bool)
| Rejected
| Pending.

(** The listener of [onDidReceiveMessage].  [activeTextEditor] is
    [vscode.window.activeTextEditor] when the message arrives.  The
    [EditorEdit] event is the call of [editor.edit] with the replacements
    its callback made on the builder; what the [then] reaction does
    follows it in the trace, and only when the promise is fulfilled. *)
Definition onDidReceiveMessage (activeTextEditor : option editor)
           (edited : settlement) (message : value) : M unit :=
  command <- Get message (lit "command") ;;
  if strict_equals_string command (lit "insertGlyph") then
    match activeTextEditor with
    | None =>
        emit (ShowInformationMessage (lit "No active editor to insert glyph into."))
    | Some editor =>
        glyph <- Get message (lit "glyph") ;;
        emit (EditorEdit editor
                (map (fun selection => Replace selection glyph) (selections editor))) ;;
        match edited with
        | Fulfilled _ => emit (ShowTextDocument (document editor))
        | Rejected | Pending => ret tt
        end
    end
  else ret tt.



End Provider.

(** A host for the examples: it lower-cases the Basic Latin capitals and
    leaves every other code unit alone, as every locale does on the keys
    used below. *)
Definition basic_latin_lower (c : code_unit) : code_unit :=
  if ((65 <=? c) && (c <=? 90))%N then (c + 32)%N else c.

Fixpoint join_with (sep : jsstring) (parts : list jsstring) : jsstring :=
  match parts with
  | [] => []
  | [p] => p
  | p :: parts' => p ++ sep ++ join_with sep parts'
  end.

#[export] Instance basic_latin_host : Host := {
  toLocaleLowerCase := map basic_latin_lower;
  error_text := fun e =>
    match e with
    | SystemError m => lit "Error: " ++ m
    | SyntaxError m => lit "SyntaxError: " ++ m
    | TypeError _ => lit "TypeError"
    end;
  display := fun _ => Normal (lit "[object Object]");
  path_join := join_with (lit "/")
}.


(** ** The vocabulary of the specification *)

Definition is_string (v : value) : bool :=
  match v with VString _ => true | _ => false end.

Definition is_string_array (v : value) : bool :=
  match v with VArray items => forallb is_string items | _ => false end.

(** [interface Snippet]: an object with a [body] and a [prefix], both arrays
    of strings. *)
Definition is_Snippet (v : value) : bool :=
  match v with
  | VObject props =>
      match lookup (lit "body") props, lookup (lit "prefix") props with
      | Some b, Some p => is_string_array b && is_string_array p
      | _, _ => false
      end
  | _ => false
  end.

(** [interface SnippetsFile]: an object whose values are snippets. *)
Definition is_SnippetsFile (v : value) : bool :=
  match v with
  | VObject props => forallb (fun entry => is_Snippet (snd entry)) props
  | _ => false
  end.

(** A well-formed resource file: it can be read and parses to a
    [SnippetsFile]. *)
Definition well_formed (f : file) : bool :=
  match f with
  | Readable (Parseable tree) => is_SnippetsFile (internalize tree)
  | _ => false
  end.

(** A resource file in any of its states: missing or unreadable, not
    parseable, or parsed to a [SnippetsFile]. *)
Definition resource_file (f : file) : bool :=
  match f with
  | Readable (Parseable tree) => is_SnippetsFile (internalize tree)
  | _ => true
  end.

(** The snippet entries of a file: the properties of the object it parses to
    (none when it does not parse to an object). *)
Definition snippet_entries (f : file) : list (jsstring * value) :=
  match f with
  | Readable (Parseable tree) =>
      match internalize tree with
      | VObject props => props
      | _ => []
      end
  | _ => []
  end.

Definition first_body_line (snippet : value) : option jsstring :=
  match snippet with
  | VObject props =>
      match lookup (lit "body") props with
      | Some (VArray (VString l :: _)) => Some l
      | _ => None
      end
  | _ => None
  end.

(** The first body line is present and not empty. *)
Definition has_glyph (snippet : value) : bool :=
  match first_body_line snippet with
  | Some (_ :: _) => true
  | _ => false
  end.

(** The entry of a key, and the entries in the order [for ... in] visits
    them. *)
Definition entry_at (props : list (jsstring * value)) (k : jsstring) : jsstring * value :=
  (k, match lookup k props with Some v => v | None => VUndefined end).

Definition enumerated (props : list (jsstring * value)) : list (jsstring * value) :=
  map (entry_at props) (own_property_keys props).

Inductive subsequence {A : Type} : list A -> list A -> Prop :=
| subsequence_nil : subsequence [] []
| subsequence_skip x l1 l2 : subsequence l1 l2 -> subsequence l1 (x :: l2)
| subsequence_keep x l1 l2 : subsequence l1 l2 -> subsequence (x :: l1) (x :: l2).

(** The keys of a member list, each at its first occurrence. *)
Fixpoint first_occurrences (seen : list jsstring) (ks : list jsstring) : list jsstring :=
  match ks with
  | [] => []
  | k :: ks' =>
      if existsb (jsstring_eqb k) seen then first_occurrences seen ks'
      else k :: first_occurrences (k :: seen) ks'
  end.

Section Vocabulary.

Context {host : Host}.

(** [snippets[fullKey].body[0]] *)
Definition read_glyph (snippets : value) (fullKey : jsstring) : M value :=
  snippet <- Get snippets fullKey ;;
  body <- Get snippet (lit "body") ;;
  Get body (lit "0").

(** The record the loop pushes for a key whose glyph is truthy. *)
Definition record_at (snippets : value) (fullKey : jsstring) : BqnPrimitive :=
  {| glyph := match outcome (read_glyph snippets fullKey) with
              | Normal g => g
              | Throw _ => VUndefined
              end;
     name := name_of fullKey;
     category := category_of fullKey |}.

(** The record of a snippet entry with a first body line. *)
Definition record_of_entry (entry : jsstring * value) : BqnPrimitive :=
  {| glyph := match first_body_line (snd entry) with
              | Some l => VString l
              | None => VUndefined
              end;
     name := name_of (fst entry);
     category := category_of (fst entry) |}.

End Vocabulary.


(** ** The ordering claim read on the text of the file, and example files *)

(** The records follow the order in which the keys stand in the file. *)
Definition records_in_file_order : Prop :=
  forall (host : Host) (this : GlyphsProvider) (fs : filesystem)
         (members : list (jsstring * json)) (primitives : list BqnPrimitive),
    fs (snippetsPath this) = Readable (Parseable (JObject members)) ->
    outcome (_loadGlyphData this fs) = Normal primitives ->
    exists visited,
      subsequence visited (map fst members)
      /\ map name primitives = map name_of visited.

(** A snippet with one body line and no prefix. *)
Definition one_line_snippet (l : jsstring) : json :=
  JObject [(lit "body", JArray [JString l]); (lit "prefix", JArray [])].

(** [{"2": {"body": ["b"], "prefix": []}, "1": {"body": ["a"], "prefix": []}}] *)
Definition numeric_keys_file : json :=
  JObject [(lit "2", one_line_snippet (lit "b")); (lit "1", one_line_snippet (lit "a"))].

(** [{"Function: Conjugate, Add": {"body": ["+"], "prefix": []},
      "hasOwnProperty": {"body": ["x"], "prefix": []}}] *)
Definition shadowing_file : json :=
  JObject [(lit "Function: Conjugate, Add", one_line_snippet (lit "+"));
           (lit "hasOwnProperty", one_line_snippet (lit "x"))].

(** A file system in which every path leads to the same file. *)
Definition only_file (f : file) : filesystem := fun _ => f.

Definition installed_at_root : GlyphsProvider := {| _extensionUri_fsPath := lit "/" |}.

(** [{"Function: Conjugate, Add": {"body": ["+"], "prefix": []},
      "Standalone": {"body": [], "prefix": []}}] *)
Definition plain_file : json :=
  JObject [(lit "Function: Conjugate, Add", one_line_snippet (lit "+"));
           (lit "Standalone", JObject [(lit "body", JArray []); (lit "prefix", JArray [])])].

(** [{"Function: Conjugate, Add": {"body": ["+"], "prefix": []}}] *)
Definition single_entry_file : json :=
  JObject [(lit "Function: Conjugate, Add", one_line_snippet (lit "+"))].

Definition conjugate_record : BqnPrimitive :=
  {| glyph := VString (lit "+"); name := lit "Conjugate, Add"; category := lit "function" |}.

(** The glyph U+2373. *)
Definition iota : jsstring := [0x2373%N].

(** [{command: "insertGlyph", glyph: "⍳"}] *)
Definition insert_iota : value :=
  VObject [(lit "command", VString (lit "insertGlyph")); (lit "glyph", VString iota)].

(** [{command: "refresh"}] *)
Definition refresh_message : value :=
  VObject [(lit "command", VString (lit "refresh"))].

(** An editor with two cursors, on lines 0 and 3. *)
Definition two_cursors : editor :=
  {| document := lit "file:///scratch.bqn";
     selections :=
       [ {| anchor := {| line := 0; character := 2 |};
            active := {| line := 0; character := 2 |} |};
         {| anchor := {| line := 3; character := 0 |};
            active := {| line := 3; character := 5 |} |} ] |}.

(** ** Further vocabulary *)

(** No code unit of [s] is white space. *)
Definition no_whitespace (s : jsstring) : bool :=
  forallb (fun c => negb (is_whitespace c)) s.

(** [s] neither starts nor ends with white space. *)
Definition trimmed (s : jsstring) : bool :=
  match s with [] => true | c :: _ => negb (is_whitespace c) end
  && match rev s with [] => true | c :: _ => negb (is_whitespace c) end.



(** [{"Function: Conjugate, Add": {"body": ["+"], "prefix": []}, "Broken": null}] *)
Definition broken_entry_file : json :=
  JObject [(lit "Function: Conjugate, Add", one_line_snippet (lit "+"));
           (lit "Broken", JNull)].

(** What the [catch] block leaves in the trace. *)
Definition failure_report {host : Host} (error : exn) : list event :=
  [ShowErrorMessage (lit "Failed to load BQN snippets: " ++ error_text error);
   ConsoleError (lit "Failed to load BQN snippets:") error].

(** * Properties *)

(** ** The matcher on the two patterns of the loader *)

Lemma not_colon_forallb (s : jsstring) :
  ~ In colon s -> forallb not_colon s = true.
Proof.
  induction s as [|c s IH]; simpl; intros H; [reflexivity|].
  apply andb_true_intro; split.
  - unfold not_colon. apply negb_true_iff, N.eqb_neq. intros E. apply H. now left.
  - apply IH. intros HI. apply H. now right.
Qed.

(** A greedy run over a prefix the class accepts, stopped by the end of the
    input or by a code unit the class rejects, takes the whole prefix as soon
    as the rest of the pattern matches there. *)
Lemma star_takes_all p k (pre rest : jsstring) (m : pieces) :
  forallb p pre = true ->
  match rest with [] => True | c :: _ => p c = false end ->
  k rest = Some m ->
  star p k (pre ++ rest) = Some (pre :: m).
Proof.
  intros Hpre Hstop Hk. induction pre as [|c pre IH]; simpl in *.
  - destruct rest as [|c r]; simpl.
    + now rewrite Hk.
    + now rewrite Hstop, Hk.
  - apply andb_prop in Hpre as [Hc Hpre]. rewrite Hc, (IH Hpre). reflexivity.
Qed.

(** Without a colon in the input, nothing lets [:] match after a run. *)
Lemma star_no_colon p (r : regex) (s : jsstring) :
  ~ In colon s -> star p (exec (Term is_colon Once :: r)) s = None.
Proof.
  induction s as [|c s IH]; intros H; [reflexivity|].
  assert (Hc : is_colon c = false).
  { unfold is_colon. apply N.eqb_neq. intros E. apply H. now left. }
  assert (Hs : ~ In colon s) by (intros HI; apply H; now right).
  assert (Hk : exec (Term is_colon Once :: r) (c :: s) = None).
  { cbn [exec quant accepts]. now rewrite Hc. }
  cbn [star]. rewrite (IH Hs), Hk. simpl. now destruct (p c).
Qed.

Lemma star_to_the_end p k (s : jsstring) :
  (forall x, k x = Some []) -> star p k s = Some [take_while p s].
Proof.
  intros Hk. induction s as [|c s IH]; cbn [star take_while].
  - now rewrite Hk.
  - destruct (p c); [now rewrite IH | now rewrite Hk].
Qed.

Lemma is_colon_colon : is_colon colon = true.
Proof. reflexivity. Qed.

Lemma not_colon_colon : not_colon colon = false.
Proof. reflexivity. Qed.

Lemma exec_category_pattern_colon (pre rest : jsstring) :
  pre <> [] -> ~ In colon pre ->
  exec category_pattern (pre ++ colon :: rest) = Some [pre; [colon]].
Proof.
  intros Hne Hno. destruct pre as [|c pre]; [congruence|].
  pose proof (not_colon_forallb _ Hno) as Hall. simpl in Hall.
  apply andb_prop in Hall as [Hc Hall].
  unfold category_pattern. cbn [exec quant accepts app]. rewrite Hc.
  rewrite (star_takes_all not_colon _ pre (colon :: rest) [[colon]] Hall).
  - reflexivity.
  - exact not_colon_colon.
  - cbn. reflexivity.
Qed.

Lemma exec_name_pattern_colon (pre rest : jsstring) :
  pre <> [] -> ~ In colon pre ->
  exec name_pattern (pre ++ colon :: rest)
  = Some [pre; [colon]; take_while is_whitespace rest].
Proof.
  intros Hne Hno. destruct pre as [|c pre]; [congruence|].
  pose proof (not_colon_forallb _ Hno) as Hall. simpl in Hall.
  apply andb_prop in Hall as [Hc Hall].
  unfold name_pattern. cbn [exec quant accepts app]. rewrite Hc.
  rewrite (star_takes_all not_colon _ pre (colon :: rest)
             [[colon]; take_while is_whitespace rest] Hall).
  - reflexivity.
  - exact not_colon_colon.
  - cbn [exec quant accepts]. rewrite is_colon_colon.
    rewrite star_to_the_end by reflexivity. reflexivity.
Qed.

Lemma exec_no_colon (r : regex) (key : jsstring) :
  ~ In colon key -> exec (Term not_colon Plus :: Term is_colon Once :: r) key = None.
Proof.
  intros H. destruct key as [|c key]; [reflexivity|].
  assert (Hs : ~ In colon key) by (intros HI; apply H; now right).
  cbn [exec quant accepts].
  change (star not_colon _ key) with (star not_colon (exec (Term is_colon Once :: r)) key).
  rewrite (star_no_colon not_colon r key Hs). now destruct (not_colon c).
Qed.

Lemma skipn_take_while p (s : jsstring) :
  skipn (length (take_while p s)) s = drop_while p s.
Proof.
  induction s as [|c s IH]; simpl; [reflexivity|].
  destruct (p c); simpl; [exact IH | reflexivity].
Qed.

Lemma skipn_past_prefix (a b : jsstring) (n : nat) :
  skipn (length a + n) (a ++ b) = skipn n b.
Proof. induction a as [|c a IH]; simpl; [reflexivity | exact IH]. Qed.

Lemma replace_name_pattern_colon (pre rest : jsstring) :
  pre <> [] -> ~ In colon pre ->
  replace_first_with_empty name_pattern (pre ++ colon :: rest)
  = drop_while is_whitespace rest.
Proof.
  intros Hne Hno. unfold replace_first_with_empty.
  rewrite (exec_name_pattern_colon pre rest Hne Hno).
  unfold matched. cbn [concat]. rewrite app_nil_r.
  rewrite !length_app. cbn [length].
  rewrite skipn_past_prefix. simpl.
  apply skipn_take_while.
Qed.

Lemma replace_class_global_is_filter p (s : jsstring) :
  replace_class_global_with_empty p s = filter (fun c => negb (p c)) s.
Proof.
  induction s as [|c s IH]; simpl; [reflexivity|].
  destruct (p c); simpl; now rewrite IH.
Qed.

(** ** [trim] *)

Lemma take_drop_while p (s : jsstring) : s = take_while p s ++ drop_while p s.
Proof.
  induction s as [|c s IH]; simpl; [reflexivity|].
  destruct (p c); simpl; [now rewrite <- IH | reflexivity].
Qed.

Lemma take_while_all p (s : jsstring) : forallb p (take_while p s) = true.
Proof.
  induction s as [|c s IH]; simpl; [reflexivity|].
  destruct (p c) eqn:E; simpl; [now rewrite E | reflexivity].
Qed.

Lemma drop_while_head p (s : jsstring) c t : drop_while p s = c :: t -> p c = false.
Proof.
  induction s as [|d s IH]; simpl; [discriminate|].
  destruct (p d) eqn:E; [exact IH|]. intros H. injection H as -> _. exact E.
Qed.

Lemma forallb_rev p (s : jsstring) : forallb p (rev s) = forallb p s.
Proof.
  induction s as [|c s IH]; simpl; [reflexivity|].
  rewrite forallb_app, IH. simpl. rewrite andb_true_r. apply andb_comm.
Qed.

(** [trim s] is [s] without a longest prefix and a longest suffix of white
    space: white space surrounds it, and it neither starts nor ends with
    white space. *)
Lemma trim_spec (s : jsstring) :
  exists l r,
    s = l ++ trim s ++ r
    /\ forallb is_whitespace l = true /\ forallb is_whitespace r = true
    /\ (forall c t, trim s = c :: t -> is_whitespace c = false)
    /\ (forall c t, trim s = t ++ [c] -> is_whitespace c = false).
Proof.
  unfold trim. set (a := drop_while is_whitespace s).
  exists (take_while is_whitespace s), (rev (take_while is_whitespace (rev a))).
  assert (Ha : a = rev (drop_while is_whitespace (rev a))
                   ++ rev (take_while is_whitespace (rev a))).
  { rewrite <- rev_app_distr, <- take_drop_while. symmetry. apply rev_involutive. }
  repeat split.
  - rewrite <- Ha. apply take_drop_while.
  - apply take_while_all.
  - rewrite forallb_rev. apply take_while_all.
  - intros c t E. rewrite E in Ha. simpl in Ha.
    exact (drop_while_head is_whitespace s c _ Ha).
  - intros c t E. apply (f_equal (@rev code_unit)) in E.
    rewrite rev_involutive, rev_app_distr in E. simpl in E.
    exact (drop_while_head is_whitespace (rev a) c _ E).
Qed.

Lemma trim_drop_while (s : jsstring) : trim (drop_while is_whitespace s) = trim s.
Proof.
  unfold trim. f_equal. f_equal. f_equal.
  induction s as [|c s IH]; simpl; [reflexivity|].
  destruct (is_whitespace c) eqn:E; [exact IH|]. simpl. now rewrite E.
Qed.

(** A key that contains a colon, but not as its first code unit, splits at
    its first colon into a non-empty text without colon and a rest. *)
Lemma first_colon_split (key : jsstring) :
  In colon key -> (forall rest, key <> colon :: rest) ->
  exists pre rest, key = pre ++ colon :: rest /\ pre <> [] /\ ~ In colon pre.
Proof.
  induction key as [|c key IH]; simpl; [tauto|].
  intros Hin Hfirst.
  destruct (code_unit_eq_dec c colon) as [->|Hc]; [now destruct (Hfirst key)|].
  destruct Hin as [E|Hin]; [congruence|].
  destruct key as [|d key]; [destruct Hin|].
  destruct (code_unit_eq_dec d colon) as [->|Hd].
  - exists [c], key. repeat split; [discriminate|]. simpl. intros [E|[]]. congruence.
  - destruct IH as (pre & rest & E & Hne & Hno); [exact Hin | congruence |].
    exists (c :: pre), rest. rewrite E. repeat split; [discriminate|].
    simpl. intros [E'|H]; [congruence | contradiction].
Qed.

(** ** Category and name of a key *)

Section KeyFacts.

Context {host : Host}.

Lemma category_of_colon (pre rest : jsstring) :
  pre <> [] -> ~ In colon pre ->
  category_of (pre ++ colon :: rest)
  = filter (fun c => negb (is_whitespace c)) (toLocaleLowerCase (trim pre)).
Proof.
  intros Hne Hno. unfold category_of.
  rewrite (exec_category_pattern_colon pre rest Hne Hno).
  apply replace_class_global_is_filter.
Qed.

Lemma name_of_colon (pre rest : jsstring) :
  pre <> [] -> ~ In colon pre ->
  name_of (pre ++ colon :: rest) = trim (drop_while is_whitespace rest).
Proof.
  intros Hne Hno. unfold name_of.
  now rewrite (replace_name_pattern_colon pre rest Hne Hno).
Qed.

Lemma category_of_no_colon (key : jsstring) :
  ~ In colon key -> category_of key = lit "other".
Proof.
  intros H. unfold category_of, category_pattern. now rewrite exec_no_colon.
Qed.

Lemma name_of_no_colon (key : jsstring) :
  ~ In colon key -> name_of key = trim key.
Proof.
  intros H. unfold name_of, replace_first_with_empty, name_pattern.
  now rewrite exec_no_colon.
Qed.

Lemma documented_keys :
  (toLocaleLowerCase (lit "Function") = lit "function" ->
   category_of (lit "Function: Conjugate, Add") = lit "function"
   /\ name_of (lit "Function: Conjugate, Add") = lit "Conjugate, Add")
  /\ (toLocaleLowerCase (lit "Modifier 2") = lit "modifier 2" ->
      category_of (lit "Modifier 2: Foo") = lit "modifier2"
      /\ name_of (lit "Modifier 2: Foo") = lit "Foo")
  /\ (category_of (lit "Standalone") = lit "other"
      /\ name_of (lit "Standalone") = lit "Standalone").
Proof.
  split; [|split].
  - intros Hlow. split; [|reflexivity].
    unfold category_of.
    change (exec category_pattern (lit "Function: Conjugate, Add"))
      with (Some [lit "Function"; [colon]]).
    cbn [group1 nth].
    change (trim (lit "Function")) with (lit "Function").
    rewrite Hlow. reflexivity.
  - intros Hlow. split; [|reflexivity].
    unfold category_of.
    change (exec category_pattern (lit "Modifier 2: Foo"))
      with (Some [lit "Modifier 2"; [colon]]).
    cbn [group1 nth].
    change (trim (lit "Modifier 2")) with (lit "Modifier 2").
    rewrite Hlow. reflexivity.
  - split; reflexivity.
Qed.

Lemma leading_colon (rest : jsstring) :
  category_of (colon :: rest) = lit "other"
  /\ name_of (colon :: rest) = trim (colon :: rest).
Proof. split; reflexivity. Qed.

End KeyFacts.

(** ** Computations that make no host call *)

Lemma bind_ret {A B} (a : A) (f : A -> M B) : bind (ret a) f = f a.
Proof. unfold bind, ret. now destruct (f a). Qed.

Lemma bind_throw {A B} (e : exn) (f : A -> M B) : bind (throw e) f = throw e.
Proof. reflexivity. Qed.

Lemma Get_cases (o : value) (k : jsstring) :
  (exists v, Get o k = ret v) \/ (exists e, Get o k = throw e).
Proof. destruct o; simpl; eauto. Qed.

Lemma hasOwnProperty_cases (o : value) (k : jsstring) :
  (exists b, hasOwnProperty o k = ret b) \/ (exists e, hasOwnProperty o k = throw e).
Proof.
  destruct o; simpl; eauto.
  destruct (lookup (lit "hasOwnProperty") props); eauto.
Qed.

Lemma jsstring_eqb_eq (a b : jsstring) : jsstring_eqb a b = true <-> a = b.
Proof.
  unfold jsstring_eqb. destruct (jsstring_eq_dec a b); split; congruence.
Qed.

Lemma jsstring_eqb_refl (a : jsstring) : jsstring_eqb a a = true.
Proof. now apply jsstring_eqb_eq. Qed.

Lemma lookup_In (k : jsstring) (v : value) props :
  lookup k props = Some v -> In (k, v) props.
Proof.
  induction props as [|[k' v'] props IH]; simpl; [discriminate|].
  destruct (jsstring_eqb k k') eqn:E.
  - apply jsstring_eqb_eq in E. intros H. injection H as ->. subst. now left.
  - intros H. right. now apply IH.
Qed.

Lemma In_lookup (k : jsstring) props :
  In k (map fst props) -> exists v, lookup k props = Some v.
Proof.
  induction props as [|[k' v'] props IH]; simpl; [tauto|].
  intros [E|H].
  - subst. rewrite jsstring_eqb_refl. eauto.
  - destruct (jsstring_eqb k k'); eauto.
Qed.

(** ** The loop of the loader *)

Section LoaderFacts.

Context {host : Host}.

Lemma read_glyph_normal snippets fullKey snippet body g :
  Get snippets fullKey = ret snippet ->
  Get snippet (lit "body") = ret body ->
  Get body (lit "0") = ret g ->
  record_at snippets fullKey
  = {| glyph := g; name := name_of fullKey; category := category_of fullKey |}.
Proof.
  intros E1 E2 E3. unfold record_at, read_glyph.
  now rewrite E1, bind_ret, E2, bind_ret, E3.
Qed.

(** The loop either throws or returns the array it was given, extended by
    the records of some of the keys, in the order of the keys; the glyph of
    every record it adds is truthy. *)
Lemma for_in_snippets_cases snippets keys :
  forall primitives,
    (exists e, for_in_snippets snippets keys primitives = throw e)
    \/ (exists visited,
           subsequence visited keys
           /\ Forall (fun k => ToBoolean (glyph (record_at snippets k)) = true) visited
           /\ for_in_snippets snippets keys primitives
              = ret (primitives ++ map (record_at snippets) visited)).
Proof.
  induction keys as [|fullKey keys IH]; intros primitives.
  - right. exists []. split; [constructor|]. split; [constructor|].
    simpl. now rewrite app_nil_r.
  - assert (Hskip :
        (exists e, for_in_snippets snippets keys primitives = throw e)
        \/ (exists visited,
               subsequence visited (fullKey :: keys)
               /\ Forall (fun k => ToBoolean (glyph (record_at snippets k)) = true) visited
               /\ for_in_snippets snippets keys primitives
                  = ret (primitives ++ map (record_at snippets) visited))).
    { destruct (IH primitives) as [He|[visited (Hs & Ht & He)]]; [now left|].
      right. exists visited. split; [now constructor | now split]. }
    cbn [for_in_snippets].
    destruct (hasOwnProperty_cases snippets fullKey) as [[own E]|[e E]]; rewrite E;
      [rewrite bind_ret | left; now exists e].
    destruct own; [|exact Hskip].
    destruct (Get_cases snippets fullKey) as [[snippet E1]|[e E1]]; rewrite E1;
      [rewrite bind_ret | left; now exists e].
    destruct (Get_cases snippet (lit "body")) as [[body E2]|[e E2]]; rewrite E2;
      [rewrite bind_ret | left; now exists e].
    destruct (Get_cases body (lit "0")) as [[g E3]|[e E3]]; rewrite E3;
      [rewrite bind_ret | left; now exists e].
    destruct (ToBoolean g) eqn:Eg; [|exact Hskip].
    pose proof (read_glyph_normal snippets fullKey snippet body g E1 E2 E3) as Hrec.
    rewrite <- Hrec.
    destruct (IH (primitives ++ [record_at snippets fullKey]))
      as [He|[visited (Hs & Ht & He)]]; [now left|].
    right. exists (fullKey :: visited). split; [now constructor|]. split.
    + constructor; [|exact Ht]. rewrite Hrec. exact Eg.
    + rewrite He. simpl. now rewrite <- app_assoc.
Qed.

Lemma array_index_zero : array_index (lit "0") = Some 0%N.
Proof. reflexivity. Qed.

(** On a snippet, [snippet.body[0]] is the first body line, or [undefined]
    when the body is empty, and it is truthy when the line is not empty. *)
Lemma snippet_glyph (snippet : value) :
  is_Snippet snippet = true ->
  exists body g,
    Get snippet (lit "body") = ret body
    /\ Get body (lit "0") = ret g
    /\ ToBoolean g = has_glyph snippet
    /\ (has_glyph snippet = true ->
        exists l, first_body_line snippet = Some l /\ l <> [] /\ g = VString l).
Proof.
  destruct snippet as [| | | | | |props]; try discriminate. cbn [is_Snippet].
  destruct (lookup (lit "body") props) as [body|] eqn:Eb; [|discriminate].
  destruct (lookup (lit "prefix") props) as [prefix|]; [|discriminate].
  intros H. apply andb_prop in H as [Hb _].
  destruct body as [| | | | |items|]; try discriminate. cbn [is_string_array] in Hb.
  exists (VArray items).
  exists (match items with [] => VUndefined | x :: _ => x end).
  split; [cbn [Get]; now rewrite Eb|].
  split; [cbn [Get]; unfold element; rewrite array_index_zero; now destruct items|].
  unfold has_glyph, first_body_line. rewrite Eb.
  destruct items as [|x items]; [split; [reflexivity | discriminate]|].
  simpl in Hb. apply andb_prop in Hb as [Hx _].
  destruct x as [| | | |l| |]; try discriminate.
  destruct l as [|c l]; [split; [reflexivity | discriminate]|].
  split; [reflexivity|]. intros _. exists (c :: l). repeat split. discriminate.
Qed.

Lemma record_of_entry_has_glyph (k : jsstring) (snippet : value) l :
  first_body_line snippet = Some l ->
  record_of_entry (k, snippet)
  = {| glyph := VString l; name := name_of k; category := category_of k |}.
Proof. intros H. unfold record_of_entry. simpl. now rewrite H. Qed.

(** On an object of snippets that has no key [hasOwnProperty], the loop
    never throws: it pushes the record of every visited entry with a
    non-empty first body line and of no other. *)
Lemma for_in_snippets_conforming props keys :
  lookup (lit "hasOwnProperty") props = None ->
  Forall (fun k => exists v, lookup k props = Some v /\ is_Snippet v = true) keys ->
  forall primitives,
    for_in_snippets (VObject props) keys primitives
    = ret (primitives
             ++ map record_of_entry
                  (filter (fun entry => has_glyph (snd entry)) (map (entry_at props) keys))).
Proof.
  intros Hno Hkeys. induction Hkeys as [|fullKey keys [v [Hv Hs]] _ IH]; intros primitives.
  - simpl. now rewrite app_nil_r.
  - cbn [for_in_snippets hasOwnProperty]. rewrite Hno, Hv, bind_ret.
    cbn [Get]. rewrite Hv, bind_ret.
    destruct (snippet_glyph v Hs) as (body & g & E2 & E3 & Ht & Hg).
    rewrite E2, bind_ret, E3, bind_ret, Ht.
    assert (Hent : entry_at props fullKey = (fullKey, v))
      by (unfold entry_at; now rewrite Hv).
    cbn [map filter]. rewrite Hent. cbn [snd].
    destruct (has_glyph v) eqn:Eg; [|apply IH].
    destruct (Hg eq_refl) as (l & Hl & _ & ->).
    rewrite IH. cbn [map]. rewrite (record_of_entry_has_glyph fullKey v l Hl).
    now rewrite <- app_assoc.
Qed.

End LoaderFacts.

(** ** Enumeration order *)

Lemma insert_index_perm n k l : Permutation (insert_index n k l) ((n, k) :: l).
Proof.
  induction l as [|[n' k'] l IH]; simpl; [reflexivity|].
  destruct (n <=? n')%N; [reflexivity|].
  rewrite IH. apply perm_swap.
Qed.

Lemma index_keys_perm ks :
  Permutation (map snd (index_keys ks)) (filter is_array_index ks).
Proof.
  induction ks as [|k ks IH]; simpl; [reflexivity|].
  unfold is_array_index. destruct (array_index k) as [n|]; [|exact IH].
  rewrite (Permutation_map snd (insert_index_perm n k (index_keys ks))).
  simpl. now constructor.
Qed.

Lemma filter_partition_perm {A} (p : A -> bool) (l : list A) :
  Permutation (filter p l ++ filter (fun x => negb (p x)) l) l.
Proof.
  induction l as [|x l IH]; simpl; [reflexivity|].
  destruct (p x); simpl.
  - now constructor.
  - rewrite <- Permutation_middle. now constructor.
Qed.

(** [for ... in] visits every own key exactly once. *)
Lemma own_property_keys_perm props :
  Permutation (own_property_keys props) (map fst props).
Proof.
  unfold own_property_keys. rewrite index_keys_perm. apply filter_partition_perm.
Qed.

Lemma index_keys_value ks n k : In (n, k) (index_keys ks) -> array_index k = Some n.
Proof.
  induction ks as [|k' ks IH]; simpl; [tauto|].
  destruct (array_index k') as [n'|] eqn:E; [|exact IH].
  intros H. apply (Permutation_in _ (insert_index_perm n' k' (index_keys ks))) in H.
  destruct H as [H|H]; [congruence | now apply IH].
Qed.

Lemma insert_index_sorted n k l :
  Sorted N.le (map fst l) -> Sorted N.le (map fst (insert_index n k l)).
Proof.
  induction l as [|[n' k'] l IH]; simpl; intros H.
  - repeat constructor.
  - destruct (n <=? n')%N eqn:E.
    + simpl. constructor; [exact H|]. constructor. now apply N.leb_le.
    + simpl. apply N.leb_gt in E. inversion H as [|? ? Hs Hh]; subst.
      constructor; [now apply IH|].
      destruct l as [|[n'' k''] l]; simpl.
      * constructor. lia.
      * destruct (n <=? n'')%N; simpl; constructor; [lia|].
        inversion Hh; subst. assumption.
Qed.

(** The array indices come out in ascending numeric order. *)
Lemma index_keys_sorted ks : Sorted N.le (map fst (index_keys ks)).
Proof.
  induction ks as [|k ks IH]; simpl; [constructor|].
  destruct (array_index k); [now apply insert_index_sorted | exact IH].
Qed.

Lemma filter_all {A} (p : A -> bool) (l : list A) :
  (forall x, In x l -> p x = true) -> filter p l = l.
Proof.
  induction l as [|x l IH]; simpl; intros H; [reflexivity|].
  rewrite (H x) by now left. f_equal. apply IH. intros y Hy. apply H. now right.
Qed.

Lemma index_keys_none ks :
  (forall k, In k ks -> is_array_index k = false) -> index_keys ks = [].
Proof.
  induction ks as [|k ks IH]; simpl; intros H; [reflexivity|].
  pose proof (H k (or_introl eq_refl)) as Hk. unfold is_array_index in Hk.
  destruct (array_index k); [discriminate|].
  apply IH. intros k' Hk'. apply H. now right.
Qed.

(** Without an array index among the keys, the enumeration order is the
    creation order. *)
Lemma own_property_keys_creation_order props :
  (forall k, In k (map fst props) -> is_array_index k = false) ->
  own_property_keys props = map fst props.
Proof.
  intros H. unfold own_property_keys. rewrite (index_keys_none _ H). simpl.
  apply filter_all. intros k Hk. now rewrite (H k Hk).
Qed.

(** *** The creation order of a parsed object is the order of the first
    occurrences of the member names. *)

Lemma define_property_keys props k v :
  map fst (define_property props k v)
  = if existsb (jsstring_eqb k) (map fst props) then map fst props
    else map fst props ++ [k].
Proof.
  induction props as [|[k' v'] props IH]; simpl; [reflexivity|].
  destruct (jsstring_eqb k k') eqn:E; simpl.
  - apply jsstring_eqb_eq in E. now subst.
  - rewrite IH. now destruct (existsb (jsstring_eqb k) (map fst props)).
Qed.

Lemma first_occurrences_ext seen seen' ks :
  (forall k, existsb (jsstring_eqb k) seen = existsb (jsstring_eqb k) seen') ->
  first_occurrences seen ks = first_occurrences seen' ks.
Proof.
  revert seen seen'. induction ks as [|k ks IH]; intros seen seen' H; simpl; [reflexivity|].
  rewrite <- (H k). destruct (existsb (jsstring_eqb k) seen); [now apply IH|].
  f_equal. apply IH. intros x. simpl. now rewrite H.
Qed.

Lemma internalize_object members :
  internalize (JObject members) = VObject (fold_left internalize_member members []).
Proof. reflexivity. Qed.

Lemma fold_members_keys members :
  forall props,
    map fst (fold_left internalize_member members props)
    = map fst props ++ first_occurrences (map fst props) (map fst members).
Proof.
  induction members as [|[k v] members IH]; intros props; simpl.
  - now rewrite app_nil_r.
  - rewrite IH, define_property_keys.
    destruct (existsb (jsstring_eqb k) (map fst props)) eqn:E; [reflexivity|].
    rewrite <- app_assoc. simpl. do 2 f_equal.
    apply first_occurrences_ext. intros x.
    rewrite existsb_app. simpl. rewrite orb_false_r. apply orb_comm.
Qed.

Lemma parsed_object_keys members :
  exists props,
    internalize (JObject members) = VObject props
    /\ map fst props = first_occurrences [] (map fst members).
Proof.
  exists (fold_left internalize_member members []). split.
  - apply internalize_object.
  - apply fold_members_keys.
Qed.

Lemma first_occurrences_fresh seen ks k :
  In k (first_occurrences seen ks) -> existsb (jsstring_eqb k) seen = false.
Proof.
  revert seen. induction ks as [|k' ks IH]; intros seen; simpl; [tauto|].
  destruct (existsb (jsstring_eqb k') seen) eqn:E; [apply IH|].
  intros [<-|H]; [exact E|].
  apply IH in H. simpl in H. now apply orb_false_elim in H.
Qed.

Lemma first_occurrences_NoDup seen ks : NoDup (first_occurrences seen ks).
Proof.
  revert seen. induction ks as [|k ks IH]; intros seen; simpl; [constructor|].
  destruct (existsb (jsstring_eqb k) seen); [apply IH|].
  constructor; [|apply IH].
  intros H. apply first_occurrences_fresh in H. simpl in H.
  now rewrite jsstring_eqb_refl in H.
Qed.

(** The keys of a parsed object are pairwise distinct. *)
Lemma parsed_object_NoDup members props :
  internalize (JObject members) = VObject props -> NoDup (map fst props).
Proof.
  destruct (parsed_object_keys members) as (props' & E & Ek).
  rewrite E. intros H. injection H as <-. rewrite Ek. apply first_occurrences_NoDup.
Qed.

Lemma entries_of_keys props :
  NoDup (map fst props) -> map (entry_at props) (map fst props) = props.
Proof.
  induction props as [|[k v] props IH]; simpl; intros H; [reflexivity|].
  inversion H as [|? ? Hk Hnd]; subst. f_equal.
  - unfold entry_at. simpl. now rewrite jsstring_eqb_refl.
  - transitivity (map (entry_at props) (map fst props)); [|exact (IH Hnd)].
    apply map_ext_in. intros k' Hk'.
    unfold entry_at. simpl.
    destruct (jsstring_eqb k' k) eqn:E; [|reflexivity].
    apply jsstring_eqb_eq in E. subst. contradiction.
Qed.

(** With pairwise distinct keys, the enumeration visits every entry exactly
    once. *)
Lemma enumerated_perm props :
  NoDup (map fst props) -> Permutation (enumerated props) props.
Proof.
  intros H. unfold enumerated.
  rewrite (Permutation_map (entry_at props) (own_property_keys_perm props)).
  now rewrite entries_of_keys.
Qed.

Lemma subsequence_nil_l {A} (l : list A) : subsequence [] l.
Proof. induction l; now constructor. Qed.

Lemma subsequence_In {A} (l1 l2 : list A) x :
  subsequence l1 l2 -> In x l1 -> In x l2.
Proof.
  induction 1 as [|y l1 l2 _ IH|y l1 l2 _ IH]; simpl; [tauto | now right; apply IH |].
  intros [E|H]; [now left | right; now apply IH].
Qed.

Lemma subsequence_length {A} (l1 l2 : list A) :
  subsequence l1 l2 -> length l1 <= length l2.
Proof. induction 1; simpl; lia. Qed.

(** ** The loader *)

Section LoadFacts.

Context {host : Host}.

Lemma try_block_unreadable this fs e :
  fs (snippetsPath this) = Unreadable e -> try_block this fs = throw e.
Proof. intros H. unfold try_block, readFileSync. now rewrite H. Qed.

Lemma try_block_unparseable this fs e :
  fs (snippetsPath this) = Readable (Unparseable e) -> try_block this fs = throw e.
Proof. intros H. unfold try_block, readFileSync. now rewrite H. Qed.

Lemma try_block_parsed this fs tree :
  fs (snippetsPath this) = Readable (Parseable tree) ->
  try_block this fs
  = for_in_snippets (internalize tree) (for_in_keys (internalize tree)) [].
Proof.
  intros H. unfold try_block, readFileSync. rewrite H, bind_ret.
  unfold JSON_parse. now rewrite bind_ret.
Qed.

Lemma try_block_cases this fs :
  (exists primitives, try_block this fs = ret primitives)
  \/ (exists e, try_block this fs = throw e).
Proof.
  destruct (fs (snippetsPath this)) as [e|[e|tree]] eqn:E.
  - right. exists e. now apply try_block_unreadable.
  - right. exists e. now apply try_block_unparseable.
  - rewrite (try_block_parsed this fs tree E).
    destruct (for_in_snippets_cases (internalize tree) (for_in_keys (internalize tree)) [])
      as [[e He]|[visited (_ & _ & He)]]; [right; now exists e|].
    left. eexists. exact He.
Qed.

Lemma load_after_return this fs primitives :
  try_block this fs = ret primitives -> _loadGlyphData this fs = ret primitives.
Proof. intros H. unfold _loadGlyphData. now rewrite H. Qed.

Lemma load_after_throw this fs e :
  try_block this fs = throw e ->
  _loadGlyphData this fs
  = ([ShowErrorMessage (lit "Failed to load BQN snippets: " ++ error_text e);
      ConsoleError (lit "Failed to load BQN snippets:") e],
     Normal []).
Proof. intros H. unfold _loadGlyphData. now rewrite H. Qed.

(** The loader always returns. *)
Lemma load_returns this fs :
  exists primitives, outcome (_loadGlyphData this fs) = Normal primitives.
Proof.
  destruct (try_block_cases this fs) as [[primitives H]|[e H]].
  - exists primitives. now rewrite (load_after_return this fs primitives H).
  - exists []. now rewrite (load_after_throw this fs e H).
Qed.

(** What the loader returns on a file that parses: the records of some of
    the enumerated keys, in enumeration order, each with a truthy glyph. *)
Lemma load_parsed this fs tree primitives :
  fs (snippetsPath this) = Readable (Parseable tree) ->
  outcome (_loadGlyphData this fs) = Normal primitives ->
  exists visited,
    subsequence visited (for_in_keys (internalize tree))
    /\ Forall (fun k => ToBoolean (glyph (record_at (internalize tree) k)) = true) visited
    /\ primitives = map (record_at (internalize tree)) visited.
Proof.
  intros Hf Hload.
  pose proof (try_block_parsed this fs tree Hf) as Htry.
  destruct (for_in_snippets_cases (internalize tree) (for_in_keys (internalize tree)) [])
    as [[e He]|[visited (Hs & Ht & He)]].
  - rewrite He in Htry. rewrite (load_after_throw this fs e Htry) in Hload.
    injection Hload as <-. exists []. repeat split; [apply subsequence_nil_l | constructor].
  - rewrite He in Htry. rewrite (load_after_return this fs _ Htry) in Hload.
    injection Hload as <-. exists visited. now repeat split.
Qed.

Lemma load_not_parsed this fs primitives :
  (forall tree, fs (snippetsPath this) <> Readable (Parseable tree)) ->
  outcome (_loadGlyphData this fs) = Normal primitives ->
  primitives = [].
Proof.
  intros Hf Hload. destruct (fs (snippetsPath this)) as [e|[e|tree]] eqn:E.
  - rewrite (load_after_throw this fs e (try_block_unreadable this fs e E)) in Hload.
    now injection Hload.
  - rewrite (load_after_throw this fs e (try_block_unparseable this fs e E)) in Hload.
    now injection Hload.
  - now destruct (Hf tree).
Qed.

(** On a well-formed file without a key [hasOwnProperty] the loader makes no
    host call and returns the record of every entry whose first body line is
    not empty, and of no other entry, in enumeration order. *)
Lemma load_conforming this fs :
  well_formed (fs (snippetsPath this)) = true ->
  lookup (lit "hasOwnProperty") (snippet_entries (fs (snippetsPath this))) = None ->
  _loadGlyphData this fs
  = ret (map record_of_entry
           (filter (fun entry => has_glyph (snd entry))
                   (enumerated (snippet_entries (fs (snippetsPath this)))))).
Proof.
  intros Hwf Hno. destruct (fs (snippetsPath this)) as [e|[e|tree]] eqn:E; try discriminate.
  apply load_after_return. rewrite (try_block_parsed this fs tree E).
  cbn [well_formed snippet_entries] in *.
  destruct (internalize tree) as [| | | | | |props]; try discriminate.
  cbn [is_SnippetsFile for_in_keys] in *.
  rewrite (for_in_snippets_conforming props (own_property_keys props) Hno); [reflexivity|].
  apply Forall_forall. intros k Hk.
  apply (Permutation_in _ (own_property_keys_perm props)) in Hk.
  destruct (In_lookup k props Hk) as [v Hv]. exists v. split; [exact Hv|].
  rewrite forallb_forall in Hwf. exact (Hwf (k, v) (lookup_In k v props Hv)).
Qed.

Lemma filter_perm {A} (p : A -> bool) (l l' : list A) :
  Permutation l l' -> Permutation (filter p l) (filter p l').
Proof.
  induction 1 as [|x l l' _ IH|x y l|l l' l'' _ IH1 _ IH2]; simpl.
  - constructor.
  - destruct (p x); [now constructor | exact IH].
  - destruct (p x), (p y); try reflexivity. apply perm_swap.
  - now rewrite IH1.
Qed.

(** So, on a well-formed file without a key [hasOwnProperty], there is
    exactly one record for each snippet entry whose first body line is not
    empty, and none for the others. *)
Lemma load_conforming_one_record_per_entry this fs tree primitives :
  fs (snippetsPath this) = Readable (Parseable tree) ->
  is_SnippetsFile (internalize tree) = true ->
  lookup (lit "hasOwnProperty") (snippet_entries (fs (snippetsPath this))) = None ->
  outcome (_loadGlyphData this fs) = Normal primitives ->
  trace (_loadGlyphData this fs) = []
  /\ Permutation primitives
       (map record_of_entry
          (filter (fun entry => has_glyph (snd entry))
                  (snippet_entries (fs (snippetsPath this))))).
Proof.
  intros Hf Hwf Hno Hload.
  assert (Hwf' : well_formed (fs (snippetsPath this)) = true) by now rewrite Hf.
  rewrite (load_conforming this fs Hwf' Hno) in Hload |- *.
  split; [reflexivity|]. injection Hload as <-.
  apply Permutation_map, filter_perm, enumerated_perm.
  rewrite Hf. cbn [snippet_entries].
  destruct tree as [| | | | |members]; try discriminate.
  destruct (parsed_object_keys members) as (props & E & _).
  rewrite E. now apply (parsed_object_NoDup members).
Qed.

End LoadFacts.

Lemma first_occurrences_In seen ks k : In k (first_occurrences seen ks) -> In k ks.
Proof.
  revert seen. induction ks as [|k' ks IH]; intros seen; simpl; [tauto|].
  destruct (existsb (jsstring_eqb k') seen).
  - intros H. right. exact (IH _ H).
  - intros [E|H]; [now left | right; exact (IH _ H)].
Qed.

Section LoadClaims.

Context {host : Host}.

(** C2, at a file the loader cannot load.  The file [shadowing_file] is
    well formed and both of its entries have a non-empty first body line,
    yet the loader returns no record: the entry named [hasOwnProperty]
    hides the method the loop calls on the parsed object, the call throws a
    [TypeError], and the [catch] block reports it. *)
Theorem shadowing_key_loses_every_record (this : GlyphsProvider) :
  well_formed (Readable (Parseable shadowing_file)) = true
  /\ map fst (filter (fun entry => has_glyph (snd entry))
                     (snippet_entries (Readable (Parseable shadowing_file))))
     = [lit "Function: Conjugate, Add"; lit "hasOwnProperty"]
  /\ _loadGlyphData this (only_file (Readable (Parseable shadowing_file)))
     = ([ShowErrorMessage
           (lit "Failed to load BQN snippets: "
              ++ error_text (TypeError (NotAFunction (lit "hasOwnProperty"))));
         ConsoleError (lit "Failed to load BQN snippets:")
           (TypeError (NotAFunction (lit "hasOwnProperty")))],
        Normal []).
Proof. repeat split. Qed.

(** C3.  The loader always returns.  Either its [try] block returns the
    records, and the loader returns them without any host call; or the
    block throws, and the loader shows exactly one error message, logs
    exactly once and returns the empty array.  A file that cannot be read
    and a file that cannot be parsed are failures of the second kind. *)
Theorem load_never_throws (this : GlyphsProvider) (fs : filesystem) :
  (exists primitives, outcome (_loadGlyphData this fs) = Normal primitives)
  /\ ((exists primitives,
          try_block this fs = ([], Normal primitives)
          /\ _loadGlyphData this fs = ([], Normal primitives))
      \/ (exists error,
             try_block this fs = ([], Throw error)
             /\ _loadGlyphData this fs
                = ([ShowErrorMessage (lit "Failed to load BQN snippets: " ++ error_text error);
                    ConsoleError (lit "Failed to load BQN snippets:") error],
                   Normal [])))
  /\ (forall error,
         fs (snippetsPath this) = Unreadable error
         \/ fs (snippetsPath this) = Readable (Unparseable error) ->
         _loadGlyphData this fs
         = ([ShowErrorMessage (lit "Failed to load BQN snippets: " ++ error_text error);
             ConsoleError (lit "Failed to load BQN snippets:") error],
            Normal [])).
Proof.
  split; [apply load_returns|]. split.
  - destruct (try_block_cases this fs) as [[primitives H]|[e H]].
    + left. exists primitives. split; [exact H | now apply load_after_return].
    + right. exists e. split; [exact H | now apply load_after_throw].
  - intros error [H|H]; apply load_after_throw.
    + now apply try_block_unreadable.
    + now apply try_block_unparseable.
Qed.

(** C6, as the code has it.  On a file that parses, the records are those
    of some of the keys of the parsed object, in the order in which
    [for ... in] enumerates them.  For an object, that order is: the keys
    that are array indices, in ascending numeric order, then the other keys
    in the order of their first occurrence in the file.  When no key of the
    file is an array index, it is the order of the first occurrences of the
    keys in the file. *)
Theorem records_in_enumeration_order (this : GlyphsProvider) (fs : filesystem)
        (tree : json) (primitives : list BqnPrimitive) :
  fs (snippetsPath this) = Readable (Parseable tree) ->
  outcome (_loadGlyphData this fs) = Normal primitives ->
  (exists visited,
      subsequence visited (for_in_keys (internalize tree))
      /\ primitives = map (record_at (internalize tree)) visited)
  /\ (forall members,
         tree = JObject members ->
         let created := first_occurrences [] (map fst members) in
         for_in_keys (internalize tree)
         = map snd (index_keys created)
             ++ filter (fun k => negb (is_array_index k)) created
         /\ Sorted N.le (map fst (index_keys created))
         /\ (forall n k, In (n, k) (index_keys created) -> array_index k = Some n)
         /\ ((forall k, In k (map fst members) -> is_array_index k = false) ->
             for_in_keys (internalize tree) = created)).
Proof.
  intros Hf Hload. split.
  - destruct (load_parsed this fs tree primitives Hf Hload) as (visited & Hs & _ & E).
    now exists visited.
  - intros members -> created.
    destruct (parsed_object_keys members) as (props & Ep & Ek).
    rewrite Ep. cbn [for_in_keys]. fold created in Ek.
    split; [|split; [|split]].
    + unfold own_property_keys. now rewrite Ek.
    + apply index_keys_sorted.
    + apply index_keys_value.
    + intros Hno. rewrite own_property_keys_creation_order; [exact Ek|].
      rewrite Ek. intros k Hk. apply Hno. exact (first_occurrences_In [] _ k Hk).
Qed.

(** C7.  Every record the loader returns has a truthy glyph.  On a resource
    file (missing, unreadable, unparseable, or parsed to a [SnippetsFile]),
    that glyph is a non-empty string, the first body line of one of the
    snippet entries of the file, and there are at most as many records as
    snippet entries. *)
Theorem glyphs_are_first_body_lines (this : GlyphsProvider) (fs : filesystem)
        (primitives : list BqnPrimitive) :
  outcome (_loadGlyphData this fs) = Normal primitives ->
  Forall (fun r => ToBoolean (glyph r) = true) primitives
  /\ (resource_file (fs (snippetsPath this)) = true ->
      (forall r,
          In r primitives ->
          exists key snippet l,
            In (key, snippet) (snippet_entries (fs (snippetsPath this)))
            /\ first_body_line snippet = Some l
            /\ l <> []
            /\ glyph r = VString l)
      /\ length primitives <= length (snippet_entries (fs (snippetsPath this)))).
Proof.
  intros Hload.
  destruct (fs (snippetsPath this)) as [e|[e|tree]] eqn:E.
  1,2: assert (primitives = []) as ->
      by (apply (load_not_parsed this fs); [intros tree; rewrite E; discriminate | exact Hload]);
    split; [constructor | intros _; split; [contradiction | simpl; lia]].
  destruct (load_parsed this fs tree primitives E Hload) as (visited & Hs & Ht & ->).
  split; [now apply Forall_map|]. intros Hres.
  cbn [resource_file snippet_entries] in *.
  destruct (internalize tree) as [| | | | | |props]; try discriminate.
  cbn [is_SnippetsFile for_in_keys] in *. split.
  - intros r Hr. apply in_map_iff in Hr as (k & <- & Hk).
    rewrite Forall_forall in Ht. pose proof (Ht k Hk) as Htruthy.
    apply (subsequence_In _ _ k Hs) in Hk.
    apply (Permutation_in _ (own_property_keys_perm props)) in Hk.
    destruct (In_lookup k props Hk) as [v Hv].
    pose proof (lookup_In k v props Hv) as Hin.
    rewrite forallb_forall in Hres. pose proof (Hres (k, v) Hin) as Hsnip. cbn [snd] in Hsnip.
    destruct (snippet_glyph v Hsnip) as (body & g & E2 & E3 & Hb & Hg).
    assert (E1 : Get (VObject props) k = ret v) by (cbn [Get]; now rewrite Hv).
    rewrite (read_glyph_normal (VObject props) k v body g E1 E2 E3) in Htruthy |- *.
    cbn [glyph] in *. rewrite Hb in Htruthy.
    destruct (Hg Htruthy) as (l & Hl & Hne & ->).
    now exists k, v, l.
  - rewrite length_map.
    rewrite (subsequence_length _ _ Hs).
    rewrite (Permutation_length (own_property_keys_perm props)). now rewrite length_map.
Qed.

End LoadClaims.

(** ** Keys and records *)

Section KeyClaims.

Context {host : Host}.

(** Every record the loader returns is the record of a key of the parsed
    object: its name and its category are those of that key. *)
Lemma record_of_some_key this fs tree primitives r :
  fs (snippetsPath this) = Readable (Parseable tree) ->
  outcome (_loadGlyphData this fs) = Normal primitives ->
  In r primitives ->
  exists key,
    In key (for_in_keys (internalize tree))
    /\ category r = category_of key /\ name r = name_of key.
Proof.
  intros Hf Hload Hr.
  destruct (load_parsed this fs tree primitives Hf Hload) as (visited & Hs & _ & ->).
  apply in_map_iff in Hr as (key & <- & Hk).
  exists key. split; [exact (subsequence_In _ _ key Hs Hk) | now split].
Qed.

Lemma enumerated_single (k : jsstring) (v : value) : enumerated [(k, v)] = [(k, v)].
Proof.
  unfold enumerated, own_property_keys, is_array_index, entry_at.
  cbn [map fst index_keys filter].
  destruct (array_index k); cbn [insert_index map snd negb app lookup];
    now rewrite jsstring_eqb_refl.
Qed.

(** A file with one entry, under any key but [hasOwnProperty], whose body
    is one non-empty line: the loader returns the record of that entry. *)
Lemma load_single_entry this fs (k l : jsstring) :
  fs (snippetsPath this) = Readable (Parseable (JObject [(k, one_line_snippet l)])) ->
  k <> lit "hasOwnProperty" ->
  l <> [] ->
  _loadGlyphData this fs
  = ([], Normal [{| glyph := VString l; name := name_of k; category := category_of k |}]).
Proof.
  intros Hf Hk Hl.
  assert (Hno : jsstring_eqb (lit "hasOwnProperty") k = false).
  { destruct (jsstring_eqb (lit "hasOwnProperty") k) eqn:E; [|reflexivity].
    apply jsstring_eqb_eq in E. congruence. }
  rewrite load_conforming; rewrite Hf.
  - change (snippet_entries (Readable (Parseable (JObject [(k, one_line_snippet l)]))))
      with [(k, VObject [(lit "body", VArray [VString l]); (lit "prefix", VArray [])])].
    rewrite enumerated_single. cbn [filter snd].
    replace (has_glyph (VObject [(lit "body", VArray [VString l]); (lit "prefix", VArray [])]))
      with true by (destruct l; [contradiction | reflexivity]).
    reflexivity.
  - reflexivity.
  - change (snippet_entries (Readable (Parseable (JObject [(k, one_line_snippet l)]))))
      with [(k, VObject [(lit "body", VArray [VString l]); (lit "prefix", VArray [])])].
    cbn [lookup]. now rewrite Hno.
Qed.

(** C1.  A key that contains a colon, with at least one code unit before
    the first one, is [pre ++ ":" ++ rest] with [pre] the text before the
    first colon; its category is [pre] trimmed, lower-cased and with every
    white-space code unit removed, and its name is what follows the prefix
    [pre:] and the white space after it, trimmed.  A key without a
    colon has the category [other] and its trimmed self as name.  So
    [Function: Conjugate, Add] gives [function] and [Conjugate, Add],
    [Modifier 2: Foo] gives [modifier2] and [Foo] (the locale lower-casing
    these two ASCII words as every locale does), and [Standalone] gives
    [other] and [Standalone].  The category and the name of every record
    the loader returns are those of a key of the parsed file. *)
Theorem category_and_name_of_key :
  (forall key : jsstring,
      In colon key -> (forall rest, key <> colon :: rest) ->
      exists pre rest,
        key = pre ++ colon :: rest /\ pre <> [] /\ ~ In colon pre
        /\ category_of key
           = filter (fun c => negb (is_whitespace c)) (toLocaleLowerCase (trim pre))
        /\ name_of key = trim (drop_while is_whitespace rest))
  /\ (forall key : jsstring,
         ~ In colon key -> category_of key = lit "other" /\ name_of key = trim key)
  /\ (toLocaleLowerCase (lit "Function") = lit "function" ->
      category_of (lit "Function: Conjugate, Add") = lit "function"
      /\ name_of (lit "Function: Conjugate, Add") = lit "Conjugate, Add")
  /\ (toLocaleLowerCase (lit "Modifier 2") = lit "modifier 2" ->
      category_of (lit "Modifier 2: Foo") = lit "modifier2"
      /\ name_of (lit "Modifier 2: Foo") = lit "Foo")
  /\ (category_of (lit "Standalone") = lit "other"
      /\ name_of (lit "Standalone") = lit "Standalone")
  /\ (forall this fs tree primitives r,
         fs (snippetsPath this) = Readable (Parseable tree) ->
         outcome (_loadGlyphData this fs) = Normal primitives ->
         In r primitives ->
         exists key,
           In key (for_in_keys (internalize tree))
           /\ category r = category_of key /\ name r = name_of key).
Proof.
  destruct documented_keys as (Hf & Hm & Hs).
  split; [|split; [|split; [|split; [|split]]]]; try assumption.
  - intros key Hin Hfirst.
    destruct (first_colon_split key Hin Hfirst) as (pre & rest & -> & Hne & Hno).
    exists pre, rest. repeat split; try assumption.
    + now apply category_of_colon.
    + now apply name_of_colon.
  - intros key H. split.
    + now apply category_of_no_colon.
    + now apply name_of_no_colon.
  - exact record_of_some_key.
Qed.

(** C10.  A key that starts with a colon is handled as a key without a
    colon: the category is [other] and the name is the whole key, leading
    colon included, trimmed.  The loader returns exactly that record for a
    file whose one entry has such a key and a non-empty body line. *)
Theorem leading_colon_key :
  (forall rest : jsstring,
      category_of (colon :: rest) = lit "other"
      /\ name_of (colon :: rest) = trim (colon :: rest))
  /\ (forall this fs (rest l : jsstring),
         fs (snippetsPath this)
         = Readable (Parseable (JObject [(colon :: rest, one_line_snippet l)])) ->
         l <> [] ->
         _loadGlyphData this fs
         = ([], Normal [{| glyph := VString l;
                           name := trim (colon :: rest);
                           category := lit "other" |}])).
Proof.
  split; [exact leading_colon|].
  intros this fs rest l Hf Hl.
  rewrite (load_single_entry this fs (colon :: rest) l Hf); [reflexivity | discriminate | exact Hl].
Qed.

End KeyClaims.

(** ** Markup *)

Section MarkupFacts.

Context {host : Host}.

Lemma interpolate_cases v :
  (exists s, interpolate v = ret s) \/ (exists e, interpolate v = throw e).
Proof.
  destruct v; simpl; eauto; destruct (display _); eauto.
Qed.

Lemma map_join_cases items :
  (exists s, map_join items = ret s) \/ (exists e, map_join items = throw e).
Proof.
  induction items as [|item items IH]; simpl; [left; now eexists|].
  unfold button.
  destruct (interpolate_cases (glyph item)) as [[s E]|[e E]]; rewrite E;
    [rewrite !bind_ret | right; now exists e].
  destruct IH as [[bs E']|[e E']]; rewrite E'.
  - left. rewrite !bind_ret. now eexists.
  - right. now exists e.
Qed.

(** Generating the markup makes no host call. *)
Lemma markup_silent bqnPrimitives : trace (markup bqnPrimitives) = [].
Proof.
  unfold markup.
  destruct (map_join_cases bqnPrimitives) as [[s E]|[e E]]; rewrite E;
    [now rewrite bind_ret | reflexivity].
Qed.

(** C9.  The markup is a function of the catalogue alone: a call of
    [_getHtmlForWebview] yields what [markup] yields on the records loaded,
    [markup] makes no host call, and two calls that load the same sequence
    of records, whatever the provider and the file system of each, yield
    the same markup. *)
Theorem markup_determined_by_catalogue (this this' : GlyphsProvider)
        (fs fs' : filesystem) (primitives : list BqnPrimitive) :
  outcome (_loadGlyphData this fs) = Normal primitives ->
  outcome (_loadGlyphData this' fs') = Normal primitives ->
  outcome (_getHtmlForWebview this fs) = outcome (markup primitives)
  /\ outcome (_getHtmlForWebview this' fs') = outcome (_getHtmlForWebview this fs)
  /\ trace (markup primitives) = [].
Proof.
  assert (H : forall t f, outcome (_loadGlyphData t f) = Normal primitives ->
                          outcome (_getHtmlForWebview t f) = outcome (markup primitives)).
  { intros t f E. unfold _getHtmlForWebview.
    destruct (_loadGlyphData t f) as [tr c]. simpl in E. subst c.
    unfold bind. now destruct (markup primitives). }
  intros E E'. split; [now apply H|]. split; [|apply markup_silent].
  now rewrite (H this fs E), (H this' fs' E').
Qed.

End MarkupFacts.

(** ** Messages from the panel *)

Section MessageFacts.

Context {host : Host}.

Lemma strict_equals_string_true v s :
  strict_equals_string v s = true <-> v = VString s.
Proof.
  destruct v; simpl; try (split; [discriminate | congruence]).
  rewrite jsstring_eqb_eq. split; congruence.
Qed.

(** C4.  On [{command: "insertGlyph", glyph: g}] with an active editor, the
    handler calls [editor.edit] once, with one replacement by [g] for each
    selection of the editor, in order; when that edit is fulfilled, and
    only then, it shows the document of the editor again. *)
Theorem insertGlyph_replaces_every_selection (target : editor) (edited : settlement)
        (message : value) (g : jsstring) :
  Get message (lit "command") = ret (VString (lit "insertGlyph")) ->
  Get message (lit "glyph") = ret (VString g) ->
  onDidReceiveMessage (Some target) edited message
  = (EditorEdit target (map (fun s => Replace s (VString g)) (selections target))
       :: match edited with
          | Fulfilled _ => [ShowTextDocument (document target)]
          | Rejected | Pending => []
          end,
     Normal tt).
Proof.
  intros Hc Hg. unfold onDidReceiveMessage. rewrite Hc, bind_ret.
  cbn [strict_equals_string]. rewrite jsstring_eqb_refl, Hg, bind_ret.
  now destruct edited.
Qed.

(** C5.  On an [insertGlyph] message without an active editor, the handler
    shows the one information message, calls nothing else and returns. *)
Theorem insertGlyph_without_editor (edited : settlement) (message : value) :
  Get message (lit "command") = ret (VString (lit "insertGlyph")) ->
  onDidReceiveMessage None edited message
  = ([ShowInformationMessage (lit "No active editor to insert glyph into.")],
     Normal tt).
Proof.
  intros Hc. unfold onDidReceiveMessage. rewrite Hc, bind_ret.
  cbn [strict_equals_string]. now rewrite jsstring_eqb_refl.
Qed.

(** C8.  A message whose [command] is anything but the string
    [insertGlyph] makes the handler return at once: no host call, no
    exception. *)
Theorem other_commands_are_ignored (activeTextEditor : option editor)
        (edited : settlement) (message command : value) :
  Get message (lit "command") = ret command ->
  command <> VString (lit "insertGlyph") ->
  onDidReceiveMessage activeTextEditor edited message = ([], Normal tt).
Proof.
  intros Hc Hne. unfold onDidReceiveMessage. rewrite Hc, bind_ret.
  destruct (strict_equals_string command (lit "insertGlyph")) eqn:E; [|reflexivity].
  apply strict_equals_string_true in E. contradiction.
Qed.

End MessageFacts.

(** ** The claims at concrete inputs *)

Lemma category_and_name_of_key_witness :
  (exists pre rest,
      lit "Function: Conjugate, Add" = pre ++ colon :: rest
      /\ pre <> [] /\ ~ In colon pre
      /\ category_of (host := basic_latin_host) (lit "Function: Conjugate, Add")
         = filter (fun c => negb (is_whitespace c))
             (toLocaleLowerCase (Host := basic_latin_host) (trim pre))
      /\ name_of (lit "Function: Conjugate, Add")
         = trim (drop_while is_whitespace rest))
  /\ (category_of (host := basic_latin_host) (lit "Function: Conjugate, Add")
      = lit "function"
      /\ name_of (lit "Function: Conjugate, Add") = lit "Conjugate, Add")
  /\ (category_of (host := basic_latin_host) (lit "Modifier 2: Foo") = lit "modifier2"
      /\ name_of (lit "Modifier 2: Foo") = lit "Foo")
  /\ (category_of (host := basic_latin_host) (lit "  x y ") = lit "other"
      /\ name_of (lit "  x y ") = trim (lit "  x y ")).
Proof.
  pose proof (@category_and_name_of_key basic_latin_host) as (Hc & Hn & Hf & Hm & _ & _).
  split; [|split; [|split]].
  - apply (Hc (lit "Function: Conjugate, Add")).
    + vm_compute. tauto.
    + discriminate.
  - apply Hf. reflexivity.
  - apply Hm. reflexivity.
  - apply (Hn (lit "  x y ")). vm_compute. intuition discriminate.
Defined.

Lemma leading_colon_key_witness :
  _loadGlyphData (host := basic_latin_host) installed_at_root
    (only_file (Readable (Parseable (JObject [(lit ": Pair", one_line_snippet iota)]))))
  = ([], Normal [{| glyph := VString iota; name := lit ": Pair"; category := lit "other" |}]).
Proof.
  apply (proj2 (leading_colon_key (host := basic_latin_host)) installed_at_root
           (only_file (Readable (Parseable (JObject [(lit ": Pair", one_line_snippet iota)]))))
           (lit " Pair") iota).
  - reflexivity.
  - discriminate.
Defined.

Lemma load_never_throws_witness :
  _loadGlyphData (host := basic_latin_host) installed_at_root
    (only_file (Unreadable (SystemError (lit "ENOENT"))))
  = ([ShowErrorMessage (lit "Failed to load BQN snippets: Error: ENOENT");
      ConsoleError (lit "Failed to load BQN snippets:") (SystemError (lit "ENOENT"))],
     Normal []).
Proof.
  apply (proj2 (proj2 (load_never_throws (host := basic_latin_host) installed_at_root
                         (only_file (Unreadable (SystemError (lit "ENOENT"))))))
               (SystemError (lit "ENOENT"))).
  left. reflexivity.
Defined.

Lemma records_in_enumeration_order_witness :
  (exists visited,
      subsequence visited (for_in_keys (internalize plain_file))
      /\ [conjugate_record]
         = map (record_at (host := basic_latin_host) (internalize plain_file)) visited)
  /\ for_in_keys (internalize plain_file)
     = [lit "Function: Conjugate, Add"; lit "Standalone"].
Proof.
  destruct (records_in_enumeration_order (host := basic_latin_host) installed_at_root
              (only_file (Readable (Parseable plain_file))) plain_file
              [conjugate_record] eq_refl eq_refl) as [Hrecords Hkeys].
  split; [exact Hrecords|].
  destruct (Hkeys _ eq_refl) as (_ & _ & _ & Hfile).
  apply Hfile. simpl. intros k [<-|[<-|[]]]; reflexivity.
Defined.

Lemma glyphs_are_first_body_lines_witness :
  (forall r,
      In r [conjugate_record] ->
      exists key snippet l,
        In (key, snippet) (snippet_entries (Readable (Parseable plain_file)))
        /\ first_body_line snippet = Some l /\ l <> [] /\ glyph r = VString l)
  /\ length [conjugate_record] <= 2.
Proof.
  apply (glyphs_are_first_body_lines (host := basic_latin_host) installed_at_root
           (only_file (Readable (Parseable plain_file))) [conjugate_record]);
    reflexivity.
Defined.

Lemma markup_determined_by_catalogue_witness :
  outcome (_getHtmlForWebview (host := basic_latin_host) installed_at_root
             (only_file (Readable (Parseable single_entry_file))))
  = outcome (_getHtmlForWebview (host := basic_latin_host) installed_at_root
               (only_file (Readable (Parseable plain_file)))).
Proof.
  apply (markup_determined_by_catalogue (host := basic_latin_host)
           installed_at_root installed_at_root
           (only_file (Readable (Parseable plain_file)))
           (only_file (Readable (Parseable single_entry_file)))
           [conjugate_record]); reflexivity.
Defined.

Lemma insertGlyph_replaces_every_selection_witness :
  onDidReceiveMessage (Some two_cursors) (Fulfilled true) insert_iota
  = ([EditorEdit two_cursors
        [Replace {| anchor := {| line := 0; character := 2 |};
                    active := {| line := 0; character := 2 |} |} (VString iota);
         Replace {| anchor := {| line := 3; character := 0 |};
                    active := {| line := 3; character := 5 |} |} (VString iota)];
      ShowTextDocument (lit "file:///scratch.bqn")],
     Normal tt).
Proof.
  apply (insertGlyph_replaces_every_selection two_cursors (Fulfilled true) insert_iota iota);
    reflexivity.
Defined.

Lemma insertGlyph_without_editor_witness :
  onDidReceiveMessage None Pending insert_iota
  = ([ShowInformationMessage (lit "No active editor to insert glyph into.")], Normal tt).
Proof. apply (insertGlyph_without_editor Pending insert_iota). reflexivity. Defined.

Lemma other_commands_are_ignored_witness :
  onDidReceiveMessage (Some two_cursors) (Fulfilled true) refresh_message = ([], Normal tt)
  /\ onDidReceiveMessage None Pending (VString (lit "insertGlyph")) = ([], Normal tt).
Proof.
  split.
  - apply (other_commands_are_ignored (Some two_cursors) (Fulfilled true) refresh_message
             (VString (lit "refresh"))); [reflexivity | discriminate].
  - apply (other_commands_are_ignored None Pending (VString (lit "insertGlyph")) VUndefined);
      [reflexivity | discriminate].
Defined.

(** C6, as it is stated.  In [numeric_keys_file] the key [2] stands before
    the key [1]; the loader returns the record of [1] before the record of
    [2].  So the records do not follow the order of the keys in the file. *)
Lemma numeric_keys_are_enumerated_first :
  map fst [(lit "2", one_line_snippet (lit "b")); (lit "1", one_line_snippet (lit "a"))]
  = [lit "2"; lit "1"]
  /\ outcome (_loadGlyphData (host := basic_latin_host) installed_at_root
                (only_file (Readable (Parseable numeric_keys_file))))
     = Normal [ {| glyph := VString (lit "a"); name := lit "1"; category := lit "other" |};
                {| glyph := VString (lit "b"); name := lit "2"; category := lit "other" |} ]
  /\ ~ records_in_file_order.
Proof.
  split; [reflexivity|]. split; [reflexivity|].
  intros H.
  destruct (H basic_latin_host installed_at_root
              (only_file (Readable (Parseable numeric_keys_file)))
              [(lit "2", one_line_snippet (lit "b")); (lit "1", one_line_snippet (lit "a"))]
              _ eq_refl eq_refl) as (visited & Hs & Hn).
  cbn [map fst] in Hs.
  inversion Hs as [|x l1 l2 Hs1|x l1 l2 Hs1]; subst.
  - inversion Hs1 as [|y l3 l4 Hs2|y l3 l4 Hs2]; subst.
    + inversion Hs2; subst. discriminate Hn.
    + inversion Hs2; subst. discriminate Hn.
  - discriminate Hn.
Defined.

(** * Further properties of the provider *)

(** ** The two patterns *)

(** X1.  The pattern that gives the category and the pattern that cuts the
    prefix off the name succeed on the same keys: both fail on a key without
    a colon or with a leading colon; on any other key both match, up to the
    first colon (the second one also takes the white space after it). *)
Theorem patterns_agree (key : jsstring) :
  (exec category_pattern key = None /\ exec name_pattern key = None
   /\ (~ In colon key \/ exists rest, key = colon :: rest))
  \/ (exists pre rest,
         key = pre ++ colon :: rest /\ pre <> [] /\ ~ In colon pre
         /\ exec category_pattern key = Some [pre; [colon]]
         /\ exec name_pattern key = Some [pre; [colon]; take_while is_whitespace rest]).
Proof.
  destruct (in_dec code_unit_eq_dec colon key) as [Hin|Hno].
  - destruct key as [|c key]; [destruct Hin|].
    destruct (code_unit_eq_dec c colon) as [->|Hc].
    + left. repeat split. right. now exists key.
    + destruct (first_colon_split (c :: key) Hin) as (pre & rest & E & Hne & Hpre).
      { intros rest E. congruence. }
      right. exists pre, rest. rewrite E. repeat split; try assumption.
      * now apply exec_category_pattern_colon.
      * now apply exec_name_pattern_colon.
  - left. split; [|split; [|now left]].
    + now apply exec_no_colon.
    + now apply exec_no_colon.
Qed.

Lemma drop_while_all p (s : jsstring) : forallb p s = true -> drop_while p s = [].
Proof.
  induction s as [|c s IH]; simpl; [reflexivity|].
  intros H. apply andb_prop in H as [Hc Hs]. rewrite Hc. now apply IH.
Qed.

Lemma whitespace_no_colon (s : jsstring) : forallb is_whitespace s = true -> ~ In colon s.
Proof.
  induction s as [|c s IH]; simpl; [tauto|].
  intros H. apply andb_prop in H as [Hc Hs]. intros [E|Hin]; [|now apply IH].
  subst. discriminate Hc.
Qed.

Lemma filter_no_whitespace (s : jsstring) :
  no_whitespace (filter (fun c => negb (is_whitespace c)) s) = true.
Proof.
  unfold no_whitespace. apply forallb_forall. intros c Hc.
  now apply filter_In in Hc.
Qed.

Lemma trim_trimmed (s : jsstring) : trimmed (trim s) = true.
Proof.
  destruct (trim_spec s) as (l & r & _ & _ & _ & Hhead & Hlast).
  unfold trimmed. apply andb_true_intro. split.
  - destruct (trim s) as [|c t] eqn:E; [reflexivity|].
    now rewrite (Hhead c t eq_refl).
  - destruct (rev (trim s)) as [|c t] eqn:E; [reflexivity|].
    apply (f_equal (@rev code_unit)) in E. rewrite rev_involutive in E. simpl in E.
    now rewrite (Hlast c (rev t) E).
Qed.

Section KeyShapes.

Context {host : Host}.

Lemma category_of_no_whitespace (key : jsstring) : no_whitespace (category_of key) = true.
Proof.
  unfold category_of. destruct (exec category_pattern key); [|reflexivity].
  rewrite replace_class_global_is_filter. apply filter_no_whitespace.
Qed.

Lemma name_of_trimmed (key : jsstring) : trimmed (name_of key) = true.
Proof. unfold name_of. apply trim_trimmed. Qed.

(** X3.  A key whose text before the first colon is white space only gets
    the empty category, not [other] (where the locale lower-cases the empty
    string to itself); its name is what follows the colon, trimmed. *)
Theorem blank_prefix_gives_empty_category (pre rest : jsstring) :
  pre <> [] ->
  forallb is_whitespace pre = true ->
  toLocaleLowerCase [] = [] ->
  category_of (pre ++ colon :: rest) = []
  /\ category_of (pre ++ colon :: rest) <> lit "other"
  /\ name_of (pre ++ colon :: rest) = trim rest.
Proof.
  intros Hne Hws Hlow.
  pose proof (whitespace_no_colon pre Hws) as Hno.
  assert (Hc : category_of (pre ++ colon :: rest) = []).
  { rewrite (category_of_colon pre rest Hne Hno).
    unfold trim. rewrite (drop_while_all is_whitespace pre Hws). simpl.
    now rewrite Hlow. }
  split; [exact Hc|]. split; [rewrite Hc; discriminate|].
  rewrite (name_of_colon pre rest Hne Hno). apply trim_drop_while.
Qed.

End KeyShapes.

(** ** More on the loader *)

Lemma In_first_occurrences seen ks k :
  In k ks -> existsb (jsstring_eqb k) seen = false -> In k (first_occurrences seen ks).
Proof.
  revert seen. induction ks as [|k' ks IH]; intros seen; simpl; [tauto|].
  intros [->|Hin] Hseen.
  - rewrite Hseen. now left.
  - destruct (existsb (jsstring_eqb k') seen) eqn:E; [now apply IH|].
    destruct (jsstring_eq_dec k k') as [->|Hne]; [now left|].
    right. apply IH; [exact Hin|]. simpl. rewrite Hseen.
    destruct (jsstring_eqb k k') eqn:E'; [|reflexivity].
    apply jsstring_eqb_eq in E'. contradiction.
Qed.

(** Every member name of an object of the file is a key of the parsed
    object. *)
Lemma member_names_are_keys members k :
  In k (map fst members) ->
  exists props,
    internalize (JObject members) = VObject props
    /\ In k (own_property_keys props)
    /\ exists v, lookup k props = Some v.
Proof.
  intros Hin. destruct (parsed_object_keys members) as (props & E & Ek).
  exists props. split; [exact E|].
  assert (Hk : In k (map fst props)).
  { rewrite Ek. now apply In_first_occurrences. }
  split; [|now apply In_lookup].
  apply (Permutation_in _ (Permutation_sym (own_property_keys_perm props)) Hk).
Qed.

Section LoaderMore.

Context {host : Host}.

(** When the loop returns, it has read the glyph of every key it did not
    skip. *)
Lemma for_in_snippets_reads snippets keys :
  forall primitives result,
    for_in_snippets snippets keys primitives = ret result ->
    forall k, In k keys ->
      hasOwnProperty snippets k = ret false
      \/ exists g, read_glyph snippets k = ret g.
Proof.
  induction keys as [|fullKey keys IH]; intros primitives result H k Hin; [destruct Hin|].
  cbn [for_in_snippets] in H.
  destruct (hasOwnProperty_cases snippets fullKey) as [[own E]|[e E]]; rewrite E in H;
    [rewrite bind_ret in H | discriminate H].
  destruct own.
  - destruct (Get_cases snippets fullKey) as [[snippet E1]|[e E1]]; rewrite E1 in H;
      [rewrite bind_ret in H | discriminate H].
    destruct (Get_cases snippet (lit "body")) as [[body E2]|[e E2]]; rewrite E2 in H;
      [rewrite bind_ret in H | discriminate H].
    destruct (Get_cases body (lit "0")) as [[g E3]|[e E3]]; rewrite E3 in H;
      [rewrite bind_ret in H | discriminate H].
    destruct Hin as [<-|Hin].
    + right. exists g. unfold read_glyph. now rewrite E1, bind_ret, E2, bind_ret.
    + destruct (ToBoolean g); exact (IH _ _ H k Hin).
  - destruct Hin as [<-|Hin]; [now left | exact (IH _ _ H k Hin)].
Qed.

Lemma load_records_have_keys this fs primitives r :
  outcome (_loadGlyphData this fs) = Normal primitives ->
  In r primitives ->
  exists key, category r = category_of key /\ name r = name_of key.
Proof.
  intros Hload Hr. destruct (fs (snippetsPath this)) as [e|[e|tree]] eqn:E.
  1,2: assert (primitives = []) as ->
      by (apply (load_not_parsed this fs); [intros tree; rewrite E; discriminate | exact Hload]);
    destruct Hr.
  destruct (load_parsed this fs tree primitives E Hload) as (visited & _ & _ & ->).
  apply in_map_iff in Hr as (key & <- & _). now exists key.
Qed.

(** X2.  Whatever the file and the locale, the category of a record the
    loader returns contains no white space, and its name neither starts nor
    ends with white space. *)
Theorem records_are_normalised (this : GlyphsProvider) (fs : filesystem)
        (primitives : list BqnPrimitive) (r : BqnPrimitive) :
  outcome (_loadGlyphData this fs) = Normal primitives ->
  In r primitives ->
  no_whitespace (category r) = true /\ trimmed (name r) = true.
Proof.
  intros Hload Hr.
  destruct (load_records_have_keys this fs primitives r Hload Hr) as (key & -> & ->).
  split; [apply category_of_no_whitespace | apply name_of_trimmed].
Qed.

(** X4.  The loader is all or nothing.  When the file is an object and
    reading [snippets[k].body[0]] throws for one of its member names [k]
    (the value is [null], or has no [body], ...), the loader returns no
    record at all, whatever the other entries are, and reports one
    failure. *)
Theorem one_unreadable_entry_discards_all (this : GlyphsProvider) (fs : filesystem)
        (members : list (jsstring * json)) (k : jsstring) (e : exn) :
  fs (snippetsPath this) = Readable (Parseable (JObject members)) ->
  In k (map fst members) ->
  read_glyph (internalize (JObject members)) k = throw e ->
  exists error, _loadGlyphData this fs = (failure_report error, Normal []).
Proof.
  intros Hf Hin Hread.
  destruct (try_block_cases this fs) as [[primitives H]|[error H]].
  - exfalso. rewrite (try_block_parsed this fs _ Hf) in H.
    destruct (member_names_are_keys members k Hin) as (props & E & Hk & v & Hv).
    rewrite E in H, Hread. cbn [for_in_keys] in H.
    destruct (for_in_snippets_reads (VObject props) _ _ _ H k Hk) as [Hown|[g Hg]].
    + cbn [hasOwnProperty] in Hown. rewrite Hv in Hown.
      destruct (lookup (lit "hasOwnProperty") props); discriminate Hown.
    + rewrite Hread in Hg. discriminate Hg.
  - exists error. now apply load_after_throw.
Qed.

(** X5.  Some files that are no snippet file load in silence: when the text
    is [null], a boolean, a number, the empty string, the empty array or the
    empty object, the loader returns no record and reports nothing. *)
Theorem keyless_documents_load_silently (this : GlyphsProvider) (fs : filesystem)
        (tree : json) :
  fs (snippetsPath this) = Readable (Parseable tree) ->
  tree = JNull \/ (exists b, tree = JBool b) \/ (exists x, tree = JNumber x)
  \/ tree = JString [] \/ tree = JArray [] \/ tree = JObject [] ->
  _loadGlyphData this fs = ([], Normal []).
Proof.
  intros Hf Htree. apply load_after_return. rewrite (try_block_parsed this fs tree Hf).
  destruct Htree as [->|[[b ->]|[[x ->]|[->|[->| ->]]]]]; reflexivity.
Qed.

(** X6.  On a well-formed file without a key [hasOwnProperty] the loader
    reports nothing and returns, in enumeration order, the record of every
    entry whose first body line is not empty: one record for each such entry
    of the file, none for the others. *)
Theorem well_formed_file_loads_every_glyph (this : GlyphsProvider) (fs : filesystem) :
  well_formed (fs (snippetsPath this)) = true ->
  lookup (lit "hasOwnProperty") (snippet_entries (fs (snippetsPath this))) = None ->
  _loadGlyphData this fs
  = ([], Normal (map record_of_entry
                   (filter (fun entry => has_glyph (snd entry))
                           (enumerated (snippet_entries (fs (snippetsPath this)))))))
  /\ Permutation
       (map record_of_entry
          (filter (fun entry => has_glyph (snd entry))
                  (enumerated (snippet_entries (fs (snippetsPath this))))))
       (map record_of_entry
          (filter (fun entry => has_glyph (snd entry))
                  (snippet_entries (fs (snippetsPath this))))).
Proof.
  intros Hwf Hno. split; [now apply load_conforming|].
  apply Permutation_map, filter_perm, enumerated_perm.
  destruct (fs (snippetsPath this)) as [e|[e|tree]]; try discriminate.
  cbn [snippet_entries well_formed] in *.
  destruct tree as [| | | | |members]; try discriminate.
  destruct (parsed_object_keys members) as (props & E & _).
  rewrite E. now apply (parsed_object_NoDup members).
Qed.

(** X7.  Any file with a member named [hasOwnProperty] fails to load,
    whatever its other members: the guard of the loop calls that member,
    which is no function, on the first key it visits. *)
Theorem hasOwnProperty_member_fails_the_load (this : GlyphsProvider) (fs : filesystem)
        (members : list (jsstring * json)) :
  fs (snippetsPath this) = Readable (Parseable (JObject members)) ->
  In (lit "hasOwnProperty") (map fst members) ->
  _loadGlyphData this fs
  = (failure_report (TypeError (NotAFunction (lit "hasOwnProperty"))), Normal []).
Proof.
  intros Hf Hin. apply load_after_throw. rewrite (try_block_parsed this fs _ Hf).
  destruct (member_names_are_keys members _ Hin) as (props & E & Hk & v & Hv).
  rewrite E. cbn [for_in_keys].
  destruct (own_property_keys props) as [|fullKey keys]; [destruct Hk|].
  cbn [for_in_snippets hasOwnProperty]. now rewrite Hv.
Qed.

Lemma load_one_property this fs tree (k l : jsstring) :
  fs (snippetsPath this) = Readable (Parseable tree) ->
  internalize tree
  = VObject [(k, VObject [(lit "body", VArray [VString l]); (lit "prefix", VArray [])])] ->
  k <> lit "hasOwnProperty" ->
  _loadGlyphData this fs
  = ([], Normal match l with
                | [] => []
                | _ :: _ =>
                    [{| glyph := VString l; name := name_of k; category := category_of k |}]
                end).
Proof.
  intros Hf Hint Hk.
  assert (Hno : jsstring_eqb (lit "hasOwnProperty") k = false).
  { destruct (jsstring_eqb (lit "hasOwnProperty") k) eqn:E; [|reflexivity].
    apply jsstring_eqb_eq in E. congruence. }
  rewrite load_conforming; rewrite Hf; cbn [snippet_entries well_formed]; rewrite Hint.
  - rewrite enumerated_single. cbn [filter snd]. now destruct l.
  - reflexivity.
  - cbn [lookup]. now rewrite Hno.
Qed.

(** X8.  When a key stands twice in the file, the loader sees the value of
    its last occurrence only: the file gives one record, with the last
    first body line, and none when that line is empty. *)
Theorem repeated_key_last_value_wins (this : GlyphsProvider) (fs : filesystem)
        (k l1 l2 : jsstring) :
  fs (snippetsPath this)
  = Readable (Parseable (JObject [(k, one_line_snippet l1); (k, one_line_snippet l2)])) ->
  k <> lit "hasOwnProperty" ->
  _loadGlyphData this fs
  = ([], Normal match l2 with
                | [] => []
                | _ :: _ =>
                    [{| glyph := VString l2; name := name_of k; category := category_of k |}]
                end).
Proof.
  intros Hf Hk. apply (load_one_property this fs _ k l2 Hf); [|exact Hk].
  cbn [internalize fold_left one_line_snippet define_property map].
  now rewrite jsstring_eqb_refl.
Qed.

End LoaderMore.

(** ** The panel *)

Section PanelMore.

Context {host : Host}.







(** X11.  The listener has four behaviours and no other.  It throws, without
    any host call, when the message is [null] or [undefined]; it does
    nothing when the command is not [insertGlyph]; without an active editor
    it shows the information message; with one, it calls [editor.edit] with
    one replacement per selection by whatever [message.glyph] is (a string
    or not, [undefined] when missing), and shows the document of that editor
    again only when the edit is fulfilled.  So it never shows an error
    message, never logs, and never shows a document it has not edited. *)
Theorem listener_behaviours (activeTextEditor : option editor) (edited : settlement)
        (message : value) :
  ((message = VNull \/ message = VUndefined)
   /\ onDidReceiveMessage activeTextEditor edited message
      = ([], Throw (TypeError (CannotReadProperty message (lit "command")))))
  \/ (exists command,
         Get message (lit "command") = ret command
         /\ command <> VString (lit "insertGlyph")
         /\ onDidReceiveMessage activeTextEditor edited message = ([], Normal tt))
  \/ (Get message (lit "command") = ret (VString (lit "insertGlyph"))
      /\ activeTextEditor = None
      /\ onDidReceiveMessage activeTextEditor edited message
         = ([ShowInformationMessage (lit "No active editor to insert glyph into.")],
            Normal tt))
  \/ (exists target g,
         Get message (lit "command") = ret (VString (lit "insertGlyph"))
         /\ activeTextEditor = Some target
         /\ Get message (lit "glyph") = ret g
         /\ onDidReceiveMessage activeTextEditor edited message
            = (EditorEdit target (map (fun s => Replace s g) (selections target))
                 :: match edited with
                    | Fulfilled _ => [ShowTextDocument (document target)]
                    | Rejected | Pending => []
                    end,
               Normal tt)).
Proof.
  destruct (Get_cases message (lit "command")) as [[command Hc]|[e Hc]].
  - right.
    destruct (strict_equals_string command (lit "insertGlyph")) eqn:Heq.
    + apply strict_equals_string_true in Heq. subst command. right.
      destruct activeTextEditor as [target|].
      * right.
        assert (Hg : exists g, Get message (lit "glyph") = ret g).
        { destruct message; try discriminate Hc; cbn [Get]; eauto. }
        destruct Hg as [g Hg]. exists target, g. repeat split; try assumption.
        unfold onDidReceiveMessage. rewrite Hc, bind_ret.
        cbn [strict_equals_string]. rewrite jsstring_eqb_refl, Hg, bind_ret.
        now destruct edited.
      * left. repeat split; [exact Hc|].
        unfold onDidReceiveMessage. rewrite Hc, bind_ret.
        cbn [strict_equals_string]. now rewrite jsstring_eqb_refl.
    + left. exists command. repeat split; [exact Hc | |].
      * intros ->. cbn [strict_equals_string] in Heq.
        now rewrite jsstring_eqb_refl in Heq.
      * unfold onDidReceiveMessage. now rewrite Hc, bind_ret, Heq.
  - left. destruct message; try discriminate Hc.
    + split; [now right | reflexivity].
    + split; [now left | reflexivity].
Qed.

End PanelMore.

Section StringBody.

Context {host : Host}.

Lemma own_property_keys_single (k : jsstring) (v : value) : own_property_keys [(k, v)] = [k].
Proof.
  unfold own_property_keys, is_array_index. cbn [map fst index_keys filter].
  now destruct (array_index k).
Qed.

(** X12.  The loader does not check that a body is an array.  When the body
    of the one entry of a file is a non-empty string, the glyph of its
    record is the first code unit of that string, not the string. *)
Theorem string_body_gives_first_code_unit (this : GlyphsProvider) (fs : filesystem)
        (k s : jsstring) (c : code_unit) (prefix : json) :
  fs (snippetsPath this)
  = Readable (Parseable (JObject [(k, JObject [(lit "body", JString (c :: s));
                                               (lit "prefix", prefix)])])) ->
  k <> lit "hasOwnProperty" ->
  _loadGlyphData this fs
  = ([], Normal [{| glyph := VString [c]; name := name_of k; category := category_of k |}]).
Proof.
  intros Hf Hk.
  assert (Hno : jsstring_eqb (lit "hasOwnProperty") k = false).
  { destruct (jsstring_eqb (lit "hasOwnProperty") k) eqn:E; [|reflexivity].
    apply jsstring_eqb_eq in E. congruence. }
  apply load_after_return. rewrite (try_block_parsed this fs _ Hf).
  change (internalize
            (JObject [(k, JObject [(lit "body", JString (c :: s)); (lit "prefix", prefix)])]))
    with (VObject [(k, VObject [(lit "body", VString (c :: s));
                                (lit "prefix", internalize prefix)])]).
  cbn [for_in_keys]. rewrite own_property_keys_single.
  cbn [for_in_snippets hasOwnProperty lookup]. rewrite Hno, jsstring_eqb_refl, bind_ret.
  cbn [Get lookup]. rewrite jsstring_eqb_refl, bind_ret.
  reflexivity.
Qed.

End StringBody.

(** ** The further properties at concrete inputs *)

Lemma records_are_normalised_witness :
  no_whitespace (lit "function") = true /\ trimmed (lit "Conjugate, Add") = true.
Proof.
  apply (records_are_normalised (host := basic_latin_host) installed_at_root
           (only_file (Readable (Parseable plain_file))) [conjugate_record] conjugate_record).
  - reflexivity.
  - left. reflexivity.
Defined.

Lemma blank_prefix_gives_empty_category_witness :
  category_of (host := basic_latin_host) (lit " : Foo") = []
  /\ category_of (host := basic_latin_host) (lit " : Foo") <> lit "other"
  /\ name_of (lit " : Foo") = trim (lit " Foo").
Proof.
  apply (blank_prefix_gives_empty_category (host := basic_latin_host) (lit " ") (lit " Foo")).
  - discriminate.
  - reflexivity.
  - reflexivity.
Defined.

Lemma one_unreadable_entry_discards_all_witness :
  exists error,
    _loadGlyphData (host := basic_latin_host) installed_at_root
      (only_file (Readable (Parseable broken_entry_file)))
    = (failure_report error, Normal []).
Proof.
  apply (one_unreadable_entry_discards_all (host := basic_latin_host) installed_at_root
           (only_file (Readable (Parseable broken_entry_file)))
           [(lit "Function: Conjugate, Add", one_line_snippet (lit "+")); (lit "Broken", JNull)]
           (lit "Broken") (TypeError (CannotReadProperty VNull (lit "body")))).
  - reflexivity.
  - right. left. reflexivity.
  - reflexivity.
Defined.

Lemma keyless_documents_load_silently_witness :
  _loadGlyphData (host := basic_latin_host) installed_at_root
    (only_file (Readable (Parseable JNull)))
  = ([], Normal []).
Proof.
  apply (keyless_documents_load_silently (host := basic_latin_host) installed_at_root
           (only_file (Readable (Parseable JNull))) JNull).
  - reflexivity.
  - left. reflexivity.
Defined.

Lemma well_formed_file_loads_every_glyph_witness :
  _loadGlyphData (host := basic_latin_host) installed_at_root
    (only_file (Readable (Parseable plain_file)))
  = ([], Normal [conjugate_record]).
Proof.
  apply (proj1 (well_formed_file_loads_every_glyph (host := basic_latin_host)
                  installed_at_root (only_file (Readable (Parseable plain_file)))
                  eq_refl eq_refl)).
Defined.

Lemma hasOwnProperty_member_fails_the_load_witness :
  _loadGlyphData (host := basic_latin_host) installed_at_root
    (only_file (Readable (Parseable shadowing_file)))
  = (failure_report (TypeError (NotAFunction (lit "hasOwnProperty"))), Normal []).
Proof.
  apply (hasOwnProperty_member_fails_the_load (host := basic_latin_host) installed_at_root
           (only_file (Readable (Parseable shadowing_file)))
           [(lit "Function: Conjugate, Add", one_line_snippet (lit "+"));
            (lit "hasOwnProperty", one_line_snippet (lit "x"))]).
  - reflexivity.
  - right. left. reflexivity.
Defined.

Lemma repeated_key_last_value_wins_witness :
  _loadGlyphData (host := basic_latin_host) installed_at_root
    (only_file (Readable (Parseable
       (JObject [(lit "Function: Conjugate, Add", one_line_snippet (lit "+"));
                 (lit "Function: Conjugate, Add", one_line_snippet iota)]))))
  = ([], Normal [{| glyph := VString iota;
                    name := lit "Conjugate, Add";
                    category := lit "function" |}]).
Proof.
  apply (repeated_key_last_value_wins (host := basic_latin_host) installed_at_root
           (only_file (Readable (Parseable
              (JObject [(lit "Function: Conjugate, Add", one_line_snippet (lit "+"));
                        (lit "Function: Conjugate, Add", one_line_snippet iota)]))))
           (lit "Function: Conjugate, Add") (lit "+") iota).
  - reflexivity.
  - discriminate.
Defined.



Lemma string_body_gives_first_code_unit_witness :
  _loadGlyphData (host := basic_latin_host) installed_at_root
    (only_file (Readable (Parseable
       (JObject [(lit "Function: Conjugate, Add",
                  JObject [(lit "body", JString (lit "+x")); (lit "prefix", JString (lit "\+"))])]))))
  = ([], Normal [conjugate_record]).
Proof.
  apply (string_body_gives_first_code_unit (host := basic_latin_host) installed_at_root
           (only_file (Readable (Parseable
              (JObject [(lit "Function: Conjugate, Add",
                         JObject [(lit "body", JString (lit "+x"));
                                  (lit "prefix", JString (lit "\+"))])]))))
           (lit "Function: Conjugate, Add") (lit "x") 43%N (JString (lit "\+"))).
  - reflexivity.
  - discriminate.
Defined.
